(** * Gym slot allocation: the two allocators of the repository

    [Gym/allocator.py] (three ranked preferences, no domain check) and
    [data/iiitk.py] (nine ranked preferences, e-mail domain check) are
    embedded below as functions on the rows that [csv.reader] hands to
    [csv.DictReader]; the properties of the specification are stated and
    settled on these functions.

    Conventions of the embedding.
    - A Python [str] is a [string]; a character is a code point below 256,
      and [str.strip], [str.lower] and [str.endswith] are Python's on that
      range.
    - A Python [int] is a [Z].
    - The [capacity] dict is a [gmap string Z]: only membership, lookup and
      update by key are used on it.
    - A row dict is an association list in insertion order; its keys are
      [Some name] for a column and [None] for [DictReader]'s [restkey].
    - An exception ends the run: the rows written before it stay written.
    - [csv.reader] is what the loop sees of it: the lines it yields and the
      exception it may raise in place of one. *)

From Stdlib Require Import ZArith Ascii.
From stdpp Require Import base option list gmap strings pretty.

Local Open Scope Z_scope.

(** ** Python values, exceptions and dicts *)

Module Py.

(** The values a [DictReader] row holds: a cell, [restval] ([None]) for a
    cell the line does not have, and under [restkey] the list of the cells
    beyond the header. *)
Inductive value : Type :=
  | VStr (s : string)
  | VNone
  | VList (l : list string).

(** The exceptions a run can end with. The first four are raised by the
    statements of [allocate_slots] and by [DictWriter]; the last three by
    [csv.reader] and the file it reads. *)
Inductive exn : Type :=
  | TypeError | KeyError | AttributeError | ValueError
  | CsvError | UnicodeDecodeError | OSError.

Inductive result (A : Type) : Type :=
  | Ok (a : A)
  | Raise (e : exn).
Arguments Ok {A} a.
Arguments Raise {A} e.

#[global] Instance result_bind : MBind result := λ A B k m,
  match m with
  | Ok a => k a
  | Raise e => Raise e
  end.

#[global] Instance value_eq_dec : EqDecision value.
Proof. solve_decision. Defined.

#[global] Instance exn_eq_dec : EqDecision exn.
Proof. solve_decision. Defined.

Abbreviation key := (option string).
Abbreviation dict := (list (option string * value)).

(** [d.get(k)], with [None] for an absent key. *)
Fixpoint dict_get (d : dict) (k : key) : option value :=
  match d with
  | [] => None
  | (k', v) :: d' => if decide (k' = k) then Some v else dict_get d' k
  end.

(** [d[k] = v]: an existing key keeps its position, a new one goes last. *)
Fixpoint dict_set (d : dict) (k : key) (v : value) : dict :=
  match d with
  | [] => [(k, v)]
  | (k', v') :: d' =>
      if decide (k' = k) then (k', v) :: d' else (k', v') :: dict_set d' k v
  end.

Definition dict_keys (d : dict) : list key := d.*1.

(** [dict(zip(ks, vs))]. *)
Definition dict_zip (ks vs : list string) : dict :=
  foldl (λ d kv, dict_set d (Some kv.1) (VStr kv.2)) [] (zip ks vs).

(** [str.isspace] of one character. *)
Definition isspace (c : ascii) : bool :=
  let n := N_of_ascii c in
  ((9 <=? n) && (n <=? 13) || (28 <=? n) && (n <=? 32)
   || (n =? 133) || (n =? 160))%N.

Fixpoint lstrip (s : string) : string :=
  match s with
  | EmptyString => EmptyString
  | String c s' => if isspace c then lstrip s' else s
  end.

Definition rstrip (s : string) : string := String.rev (lstrip (String.rev s)).

(** [s.strip()]. *)
Definition strip (s : string) : string := rstrip (lstrip s).

Definition lower_char (c : ascii) : ascii :=
  let n := N_of_ascii c in
  if ((65 <=? n) && (n <=? 90)
      || (192 <=? n) && (n <=? 222) && negb (n =? 215))%N
  then ascii_of_N (n + 32) else c.

(** [s.lower()]. *)
Fixpoint lower (s : string) : string :=
  match s with
  | EmptyString => EmptyString
  | String c s' => String (lower_char c) (lower s')
  end.

(** [s.endswith(suffix)]. *)
Definition endswith (s suffix : string) : bool :=
  Stdlib.Strings.String.prefix (String.rev suffix) (String.rev s).

(** Truth value of a [str]. *)
Definition truthy (s : string) : bool := negb (bool_decide (s = "")).

End Py.

Import Py.

(** ** The parts of the [csv] module the allocators use *)

Module Csv.

(** One step of [DictReader.__next__] on a non-blank line. *)
Definition reader_row (fieldnames : list string) (row : list string) : dict :=
  let d := dict_zip fieldnames row in
  let lf := length fieldnames in
  let lr := length row in
  if (lf <? lr)%nat then dict_set d None (VList (drop lf row))
  else if (lr <? lf)%nat then
    foldl (λ d k, dict_set d (Some k) VNone) d (drop lr fieldnames)
  else d.

(** The rows [DictReader] yields for the lines after the header, the
    underlying reader having yielded these lines: blank lines (empty
    lists) are skipped. An exception of the underlying reader is not a
    row; it ends the run ([allocate_slots_reading] below). *)
Definition DictReader (fieldnames : list string) (lines : list (list string))
  : list dict :=
  reader_row fieldnames <$> filter (λ row, row ≠ []) lines.

(** The cells [DictWriter] hands to the underlying writer: the value of
    each column in header order, [restval] [""] where the dict has none. *)
Definition row_cells (fieldnames : list string) (rowdict : dict) : list value :=
  (λ k, default (VStr "") (dict_get rowdict (Some k))) <$> fieldnames.

(** [DictWriter._dict_to_list] with [extrasaction="raise"]. *)
Definition dict_to_list (fieldnames : list string) (rowdict : dict)
  : result (list value) :=
  if forallb (λ k, bool_decide (k ∈ (Some <$> fieldnames))) (dict_keys rowdict)
  then Ok (row_cells fieldnames rowdict)
  else Raise ValueError.

Definition writerow := dict_to_list.

(** [DictWriter.writeheader]. *)
Definition writeheader (fieldnames : list string) : result (list value) :=
  writerow fieldnames (dict_zip fieldnames fieldnames).

End Csv.

Import Csv.

(** ** What both allocators share *)

(** The state of a run: the header line once written, the rows written so
    far (as the dicts handed to [writerow]), the capacity table, and the
    exception that ended the run, if one did. *)
Record run : Type := Run {
  fieldnames_out : list string;
  header_out : option (list value);
  records : list dict;
  capacity_end : gmap string Z;
  raised : option exn
}.

(** The lines of the output file. *)
Definition lines_out (r : run) : list (list value) :=
  option_list (header_out r) ++ (row_cells (fieldnames_out r) <$> records r).

(** [slot in capacity and capacity[slot] > 0]: the slot's label and its
    remaining capacity when the test holds. *)
Definition available (capacity : gmap string Z) (slot : value)
  : result (option (string * Z)) :=
  match slot with
  | VList _ => Raise TypeError
  | VNone => Ok None
  | VStr s =>
      match capacity !! s with
      | Some c => if bool_decide (0 < c) then Ok (Some (s, c)) else Ok None
      | None => Ok None
      end
  end.

(** The loop over the preference columns: [read] is how a variant fetches
    the slot a column names. The result is [allocated_slot] and the table. *)
Fixpoint first_fit (read : dict → string → result value)
    (capacity : gmap string Z) (row : dict) (prefs : list string)
  : result (option string * gmap string Z) :=
  match prefs with
  | [] => Ok (None, capacity)
  | pref :: prefs' =>
      slot ← read row pref;
      a ← available capacity slot;
      match a with
      | Some (s, c) => Ok (Some s, <[s := c - 1]> capacity)
      | None => first_fit read capacity row prefs'
      end
  end.

(** [allocated_slot if allocated_slot else "No slot allocated"]. *)
Definition outcome_of (allocated_slot : option string) : string :=
  match allocated_slot with
  | Some s => if truthy s then s else "No slot allocated"
  | None => "No slot allocated"
  end.

(** The [for row in reader] loop: [step] is the body up to the assignment
    of [row["Allocated Slot"]], then the row is written. *)
Fixpoint write_rows (step : gmap string Z → dict → result (dict * gmap string Z))
    (fieldnames : list string) (capacity : gmap string Z) (rows : list dict)
  : list dict * gmap string Z * option exn :=
  match rows with
  | [] => ([], capacity, None)
  | row :: rows' =>
      match step capacity row with
      | Raise e => ([], capacity, Some e)
      | Ok (row', capacity') =>
          match writerow fieldnames row' with
          | Raise e => ([], capacity', Some e)
          | Ok _ =>
              let '(out, c, e) := write_rows step fieldnames capacity' rows' in
              (row' :: out, c, e)
          end
      end
  end.

(** The run from the header on: [writeheader], then the loop. *)
Definition run_from (step : gmap string Z → dict → result (dict * gmap string Z))
    (fieldnames : list string) (capacity : gmap string Z) (rows : list dict)
  : run :=
  match writeheader fieldnames with
  | Raise e => Run fieldnames None [] capacity (Some e)
  | Ok h =>
      let '(out, c, e) := write_rows step fieldnames capacity rows in
      Run fieldnames (Some h) out c e
  end.

(** The outcome an output record carries. *)
Definition outcome (r : dict) : option value := dict_get r (Some "Allocated Slot").

(** How many records carry the outcome [s]. *)
Definition count_outcome (s : string) (rs : list dict) : nat :=
  length (filter (λ r, outcome r = Some (VStr s)) rs).

(** ** [Gym/allocator.py] *)

Module Gym.

Definition capacity : gmap string Z :=
  list_to_map
    [ ("SLOT 1 (5:30AM TO 7:00 AM)", 5);
      ("SLOT 2 (7:00AM TO 8:30AM)", 7);
      ("SLOT 3 (4:00PM TO 5:30PM)", 12);
      ("SLOT 4 (5:30PM TO 7:00PM)", 5);
      ("SLOT 5 (7:00PM TO 8:30PM)", 0) ].

Definition preference_columns : list string :=
  ["SLOT PREFERENCE : 1"; "SLOT PREFERENCE : 2"; "SLOT PREFERENCE : 3"].

(** [row[pref_key]]. *)
Definition read (row : dict) (pref_key : string) : result value :=
  match dict_get row (Some pref_key) with
  | Some v => Ok v
  | None => Raise KeyError
  end.

(** The body of the loop over the rows. *)
Definition allocate_row (capacity : gmap string Z) (row : dict)
  : result (dict * gmap string Z) :=
  '(allocated_slot, capacity') ← first_fit read capacity row preference_columns;
  Ok (dict_set row (Some "Allocated Slot") (VStr (outcome_of allocated_slot)),
      capacity').

(** [reader.fieldnames + ["Allocated Slot"]]. *)
Definition fieldnames (names : list string) : list string :=
  names ++ ["Allocated Slot"].

(** [allocate_slots]: [infile] is what [csv.reader] yields for the input
    file, header line first, when it reaches the end of the file. With no
    line at all [reader.fieldnames] is [None] and the concatenation
    raises. *)
Definition allocate_slots (infile : list (list string)) : run :=
  match infile with
  | [] => Run [] None [] capacity (Some TypeError)
  | names :: lines =>
      run_from allocate_row (fieldnames names) capacity (DictReader names lines)
  end.

End Gym.

(** ** [data/iiitk.py] *)

Module Iiitk.

Definition capacity : gmap string Z :=
  list_to_map
    [ ("SLOT 1 (4:30AM TO 5:30 AM)", 20);
      ("SLOT 2 (5:30AM TO 7:00 AM)", 2);
      ("SLOT 3 (7:00AM TO 8:30AM)", 3);
      ("SLOT 4 (2:30PM TO 4:00PM)", 35);
      ("SLOT 5 (4:00PM TO 5:30PM)", 3);
      ("SLOT 6 (5:30PM TO 7:00PM)", 1);
      ("SLOT 7 (7:00PM TO 8:30PM)", 1);
      ("SLOT 8 (8:30PM TO 10:00PM)", 35);
      ("SLOT 9 (10:00PM TO 11:30PM)", 35) ].

Definition preference_columns : list string :=
  (λ i : nat, "SLOT PREFERENCE : " +:+ pretty i) <$> seq 1 9.

Definition domain : string := "@iiitk.ac.in".

(** [row.get(k, "").strip()]. *)
Definition get_strip (row : dict) (k : string) : result string :=
  match dict_get row (Some k) with
  | None => Ok (strip "")
  | Some (VStr s) => Ok (strip s)
  | Some VNone | Some (VList _) => Raise AttributeError
  end.

Definition read (row : dict) (pref : string) : result value :=
  s ← get_strip row pref; Ok (VStr s).

(** The body of the loop over the rows. *)
Definition allocate_row (capacity : gmap string Z) (row : dict)
  : result (dict * gmap string Z) :=
  e ← get_strip row "Email";
  let email := lower e in
  if negb (endswith email domain) then
    Ok (dict_set row (Some "Allocated Slot") (VStr "Invalid email domain"),
        capacity)
  else
    '(allocated_slot, capacity') ← first_fit read capacity row preference_columns;
    Ok (dict_set row (Some "Allocated Slot") (VStr (outcome_of allocated_slot)),
        capacity').

(** The header of the output: ["Allocated Slot"] is added unless the input
    header has it. *)
Definition fieldnames (names : list string) : list string :=
  if bool_decide ("Allocated Slot" ∈ names) then names
  else names ++ ["Allocated Slot"].

(** [allocate_slots]; with no line at all the membership test on
    [reader.fieldnames], which is [None], raises. *)
Definition allocate_slots (infile : list (list string)) : run :=
  match infile with
  | [] => Run [] None [] capacity (Some TypeError)
  | names :: lines =>
      run_from allocate_row (fieldnames names) capacity (DictReader names lines)
  end.

End Iiitk.

(** ** The two variants side by side *)

Inductive variant : Type := Base | Extended.

Definition capacity_of (v : variant) : gmap string Z :=
  match v with Base => Gym.capacity | Extended => Iiitk.capacity end.

Definition preference_columns_of (v : variant) : list string :=
  match v with
  | Base => Gym.preference_columns
  | Extended => Iiitk.preference_columns
  end.

Definition read_of (v : variant) : dict → string → result value :=
  match v with Base => Gym.read | Extended => Iiitk.read end.

Definition allocate_row_of (v : variant)
  : gmap string Z → dict → result (dict * gmap string Z) :=
  match v with Base => Gym.allocate_row | Extended => Iiitk.allocate_row end.

Definition allocate_slots_of (v : variant) : list (list string) → run :=
  match v with Base => Gym.allocate_slots | Extended => Iiitk.allocate_slots end.

Definition fieldnames_of (v : variant) : list string → list string :=
  match v with Base => Gym.fieldnames | Extended => Iiitk.fieldnames end.

(** The outcomes of a variant that are not slot labels. *)
Definition fallbacks_of (v : variant) : list string :=
  match v with
  | Base => ["No slot allocated"]
  | Extended => ["No slot allocated"; "Invalid email domain"]
  end.

(** The input records of a run: the rows [DictReader] yields. *)
Definition input_records (infile : list (list string)) : list dict :=
  match infile with
  | [] => []
  | names :: lines => DictReader names lines
  end.

(** The table as it stands when input record [i] is about to be processed
    (after the last record, for [i] beyond the input); [None] when the run
    has ended with an exception before that. *)
Definition capacity_when (v : variant) (infile : list (list string)) (i : nat)
  : option (gmap string Z) :=
  let '(_, c, e) :=
    write_rows (allocate_row_of v) (fieldnames_of v (hd [] infile))
      (capacity_of v) (take i (input_records infile)) in
  match e with None => Some c | Some _ => None end.

(** ** Invariants of the loop *)

(** A table none of whose keys is the empty label or a fallback outcome. *)
Definition table_ok (fallbacks : list string) (cap : gmap string Z) : Prop :=
  cap !! "" = None ∧ ∀ o, o ∈ fallbacks → cap !! o = None.

(** What one row may do: record a fallback outcome and leave the table
    alone, or record a slot with remaining capacity and take one place. *)
Inductive transition (fallbacks : list string) (cap : gmap string Z) (row : dict)
  : dict → gmap string Z → Prop :=
  | transition_fallback o :
      o ∈ fallbacks →
      transition fallbacks cap row
        (dict_set row (Some "Allocated Slot") (VStr o)) cap
  | transition_slot s c :
      cap !! s = Some c → 0 < c →
      transition fallbacks cap row
        (dict_set row (Some "Allocated Slot") (VStr s)) (<[s := c - 1]> cap).

(** ** The vocabulary of the specification *)

(** The label [s] is a key of the table with remaining capacity. *)
Definition has_room (cap : gmap string Z) (s : string) : Prop :=
  ∃ c, cap !! s = Some c ∧ 0 < c.

(** The value of a preference column names no slot with remaining capacity. *)
Definition no_room (cap : gmap string Z) (slot : value) : Prop :=
  match slot with
  | VStr s => ¬ has_room cap s
  | VNone => True
  | VList _ => False
  end.

(** The preference of rank [i] (counted from 0) is the first, in the order
    of the columns [prefs], whose label has room in [cap]; its label is
    [s]. *)
Definition first_available (read : dict → string → result value)
    (cap : gmap string Z) (row : dict) (prefs : list string)
    (i : nat) (s : string) : Prop :=
  (∃ pref, prefs !! i = Some pref ∧ read row pref = Ok (VStr s)) ∧
  has_room cap s ∧
  ∀ j pref, (j < i)%nat → prefs !! j = Some pref →
    ∃ slot, read row pref = Ok slot ∧ no_room cap slot.

(** The record reaches preference matching: always in the base variant, with
    an e-mail on the required domain in the extended one. *)
Definition reaches_matching (v : variant) (row : dict) : Prop :=
  match v with
  | Base => True
  | Extended =>
      ∃ e, Iiitk.get_strip row "Email" = Ok e ∧
           endswith (lower e) Iiitk.domain = true
  end.

(** A string of whitespace only (the empty string included). *)
Fixpoint all_space (s : string) : bool :=
  match s with
  | EmptyString => true
  | String c s' => isspace c && all_space s'
  end.

(** [out] is [inp] with one field more, ["Allocated Slot"], at the end. *)
Definition appended (inp out : dict) : Prop :=
  ∃ o, out = inp ++ [(Some "Allocated Slot", VStr o)].

(** An input is rectangular when every line that is not blank has as many
    cells as the header; in the base variant the three preference columns
    must be in the header too. *)
Definition rectangular (v : variant) (infile : list (list string)) : Prop :=
  match infile with
  | [] => False
  | names :: lines =>
      Forall (λ line, line = [] ∨ length line = length names) lines ∧
      match v with
      | Base => Forall (λ pref, pref ∈ names) Gym.preference_columns
      | Extended => True
      end
  end.

(** ** Input files used below *)

(** A header without the third preference column, and an applicant whose
    first two preferences cannot be served. *)
Definition two_preference_file : list (list string) :=
  [ ["Name"; "SLOT PREFERENCE : 1"; "SLOT PREFERENCE : 2"];
    ["asha"; "SLOT 5 (7:00PM TO 8:30PM)"; "SLOT 33"] ].

(** The same applicant for the extended variant. *)
Definition two_preference_file_email : list (list string) :=
  [ ["Email"; "SLOT PREFERENCE : 1"; "SLOT PREFERENCE : 2"];
    ["asha@iiitk.ac.in"; "SLOT 55"; "SLOT 33"] ].

(** The full header of the base variant, and a line that stops after the
    first preference. *)
Definition short_line_file : list (list string) :=
  [ ["Name"; "SLOT PREFERENCE : 1"; "SLOT PREFERENCE : 2";
     "SLOT PREFERENCE : 3"];
    ["asha"; "SLOT 33"] ].

(** The full header of the extended variant, and a line that stops after
    the first preference. *)
Definition short_line_file_email : list (list string) :=
  [ ["Email"; "SLOT PREFERENCE : 1"; "SLOT PREFERENCE : 2";
     "SLOT PREFERENCE : 3"; "SLOT PREFERENCE : 4"; "SLOT PREFERENCE : 5";
     "SLOT PREFERENCE : 6"; "SLOT PREFERENCE : 7"; "SLOT PREFERENCE : 8";
     "SLOT PREFERENCE : 9"];
    ["asha@iiitk.ac.in"; "SLOT 33"] ].

(** A header with the "Email" column, and a line that stops before it. *)
Definition no_email_cell_file : list (list string) :=
  [ ["Name"; "Email"; "SLOT PREFERENCE : 1"];
    ["asha"] ].

(** A header without the "Email" column. *)
Definition no_email_column_file : list (list string) :=
  [ ["Name"; "SLOT PREFERENCE : 1"];
    ["asha"; "SLOT 6 (5:30PM TO 7:00PM)"] ].

(** A line with one cell more than the header, as a trailing comma gives. *)
Definition surplus_cell_file : list (list string) :=
  [ ["Name"; "SLOT PREFERENCE : 1"; "SLOT PREFERENCE : 2";
     "SLOT PREFERENCE : 3"];
    ["asha"; "SLOT 4 (5:30PM TO 7:00PM)"; ""; ""; ""] ].

(** A file that already has the column "Allocated Slot", as the output of
    an earlier run has. *)
Definition annotated_file : list (list string) :=
  [ ["Email"; "SLOT PREFERENCE : 1"; "Allocated Slot"];
    ["asha@iiitk.ac.in"; "SLOT 6 (5:30PM TO 7:00PM)"; "No slot allocated"] ].

(** Two applicants for the one place of slot 6, the first from another
    domain. *)
Definition contested_file : list (list string) :=
  [ ["Email"; "SLOT PREFERENCE : 1"];
    ["a@other.com"; "SLOT 6 (5:30PM TO 7:00PM)"];
    ["b@iiitk.ac.in"; "SLOT 6 (5:30PM TO 7:00PM)"] ].

(** ** Further vocabulary *)

(** The lines of an input after its header. *)
Definition data_lines (infile : list (list string)) : list (list string) :=
  tail infile.

(** An input the variant reads to the end. In both variants no line has
    more cells than the header. The base variant wants the three
    preference columns in the header and takes lines of any smaller
    length; the extended variant wants every line that is not blank to
    have as many cells as the header. *)
Definition tolerated (v : variant) (infile : list (list string)) : Prop :=
  match infile with
  | [] => False
  | names :: lines =>
      match v with
      | Base =>
          Forall (λ pref, pref ∈ names) Gym.preference_columns ∧
          Forall (λ line : list string, (length line ≤ length names)%nat) lines
      | Extended =>
          Forall (λ line : list string,
                    line = [] ∨ length line = length names) lines
      end
  end.

(** The record carries a slot of the variant's table as its outcome. *)
Definition has_slot (v : variant) (r : dict) : bool :=
  match outcome r with
  | Some (VStr s) => bool_decide (is_Some (capacity_of v !! s))
  | _ => false
  end.

(** How many records carry a slot. *)
Definition placed (v : variant) (rs : list dict) : nat :=
  length (List.filter (has_slot v) rs).

(** The columns the row body of a variant reads. *)
Definition columns_read (v : variant) : list string :=
  match v with
  | Base => Gym.preference_columns
  | Extended => "Email" :: Iiitk.preference_columns
  end.

(** What the row body decides: the outcome and the table, or the
    exception. *)
Definition decision (res : result (dict * gmap string Z))
  : result (option value * gmap string Z) :=
  match res with
  | Ok (row', cap') => Ok (outcome row', cap')
  | Raise e => Raise e
  end.

(** [row.get("Email", "").strip().lower()], the address the extended
    variant tests. *)
Definition email_of (row : dict) : result string :=
  e ← Iiitk.get_strip row "Email"; Ok (lower e).

(** ** The reader *)

(** What [csv.reader] does with the input file, seen from the loop that
    asks it for one line at a time: the lines it yields, header line
    first, and the exception it raises in place of a further line when it
    does not reach the end of the file ([_csv.Error] for a field longer
    than the field size limit, [UnicodeDecodeError] for bytes that are
    not UTF-8, [OSError]). *)
Record reading : Type := Reading {
  yielded : list (list string);
  failure : option exn
}.

(** [allocate_slots] on a reading. The lines the reader yields are
    processed as [allocate_slots_of] says. An exception of the reader
    ends the run where the next line was asked for: at
    [reader.fieldnames] when no line was yielded, and then nothing is
    written; after the last line yielded otherwise. A run that a
    statement of the program has ended never asks for that line. *)
Definition allocate_slots_reading (v : variant) (rd : reading) : run :=
  match yielded rd, failure rd with
  | [], Some e => Run [] None [] (capacity_of v) (Some e)
  | infile, f =>
      let r := allocate_slots_of v infile in
      Run (fieldnames_out r) (header_out r) (records r) (capacity_end r)
        (match raised r with Some e => Some e | None => f end)
  end.

(** ** The row bodies of a run *)

(** The row bodies the loop executes to their end, in order: for each one
    the record with its outcome, as it is handed to [writerow], and the
    table the body leaves. When [writerow] refuses that record the loop
    ends there, after the body. *)
Fixpoint bodies (step : gmap string Z → dict → result (dict * gmap string Z))
    (fieldnames : list string) (capacity : gmap string Z) (rows : list dict)
  : list (dict * gmap string Z) :=
  match rows with
  | [] => []
  | row :: rows' =>
      match step capacity row with
      | Raise _ => []
      | Ok (row', capacity') =>
          (row', capacity') ::
          match writerow fieldnames row' with
          | Raise _ => []
          | Ok _ => bodies step fieldnames capacity' rows'
          end
      end
  end.

Definition bodies_of (v : variant) (infile : list (list string))
  : list (dict * gmap string Z) :=
  bodies (allocate_row_of v) (fieldnames_of v (hd [] infile)) (capacity_of v)
    (input_records infile).

(** The table at every moment of a run: as configured, then as each row
    body leaves it. *)
Definition tables (v : variant) (infile : list (list string))
  : list (gmap string Z) :=
  capacity_of v :: (bodies_of v infile).*2.

(** ** Preferences as the record lists them *)

(** The label a record lists under a preference column: the cell itself
    in the base variant, the cell without surrounding white space in the
    extended one. A record that has no cell there (the header lacks the
    column, or the line ends before it) lists none. *)
Definition listed (v : variant) (row : dict) (pref : string) : option string :=
  match dict_get row (Some pref) with
  | Some (VStr cell) =>
      Some (match v with Base => cell | Extended => strip cell end)
  | _ => None
  end.

(** Rank [i] (counted from 0) is the first preference of the record, in
    rank order, whose label is a key of the table with remaining capacity
    above 0; that label is [s]. *)
Definition first_with_room (v : variant) (cap : gmap string Z) (row : dict)
    (i : nat) (s : string) : Prop :=
  (∃ pref, preference_columns_of v !! i = Some pref ∧
           listed v row pref = Some s) ∧
  has_room cap s ∧
  ∀ j pref s', (j < i)%nat → preference_columns_of v !! j = Some pref →
    listed v row pref = Some s' → ¬ has_room cap s'.

(** The variant can read the column on this record: the base variant
    needs the key, whatever it holds; the extended variant needs a value
    that is not [None], or no key at all. *)
Definition present (v : variant) (row : dict) (pref : string) : Prop :=
  match v, dict_get row (Some pref) with
  | _, Some (VStr _) => True
  | Base, Some VNone => True
  | Extended, None => True
  | _, _ => False
  end.

(** The columns that decide the outcome of a record whose first
    preference with room has rank [i]. *)
Definition decisive (v : variant) (i : nat) : list string :=
  match v with
  | Base => take (S i) Gym.preference_columns
  | Extended => "Email" :: take (S i) Iiitk.preference_columns
  end.

(** The record holds nothing beyond the columns of the header: its line
    had no more cells than the header. *)
Definition no_surplus (row : dict) : Prop := None ∉ dict_keys row.

(** [out] is the line [line] with one cell more at the end. *)
Definition appended_line (line : list string) (out : list value) : Prop :=
  ∃ o, out = (VStr <$> line) ++ [VStr o].

(** ** More input files *)

(** A header without the first preference column. *)
Definition no_first_preference_file : list (list string) :=
  [ ["Name"; "SLOT PREFERENCE : 2"; "SLOT PREFERENCE : 3"];
    ["asha"; "SLOT 4 (5:30PM TO 7:00PM)"; ""] ].

(** The nine preference columns with the first one last, and a line that
    stops after the second preference. *)
Definition late_first_preference_file : list (list string) :=
  [ ["Email"; "SLOT PREFERENCE : 2"; "SLOT PREFERENCE : 3";
     "SLOT PREFERENCE : 4"; "SLOT PREFERENCE : 5"; "SLOT PREFERENCE : 6";
     "SLOT PREFERENCE : 7"; "SLOT PREFERENCE : 8"; "SLOT PREFERENCE : 9";
     "SLOT PREFERENCE : 1"];
    ["asha@iiitk.ac.in"; "SLOT 6 (5:30PM TO 7:00PM)"] ].

(** Two applicants for the one place of slot 6; the line of the first has
    one cell more than the header. *)
Definition contested_surplus_file : list (list string) :=
  [ ["Email"; "SLOT PREFERENCE : 1"];
    ["a@iiitk.ac.in"; "SLOT 6 (5:30PM TO 7:00PM)"; ""];
    ["b@iiitk.ac.in"; "SLOT 6 (5:30PM TO 7:00PM)"] ].

(** * Properties *)

(** ** Strings *)

(** The characters [str.strip] removes, by code point. *)
Example isspace_code_points :
  List.filter (λ n, isspace (ascii_of_nat n)) (seq 0 256) =
  [9; 10; 11; 12; 13; 28; 29; 30; 31; 32; 133; 160]%nat.
Proof. vm_compute. reflexivity. Qed.

(** The characters [str.lower] changes, by code point: each goes 32 up. *)
Example lower_code_points :
  List.filter
    (λ n, negb (bool_decide (lower_char (ascii_of_nat n) = ascii_of_nat n)))
    (seq 0 256) =
  (seq 65 26 ++ seq 192 23 ++ seq 216 7)%nat.
Proof. vm_compute. reflexivity. Qed.

Example iiitk_preference_columns :
  Iiitk.preference_columns =
  [ "SLOT PREFERENCE : 1"; "SLOT PREFERENCE : 2"; "SLOT PREFERENCE : 3";
    "SLOT PREFERENCE : 4"; "SLOT PREFERENCE : 5"; "SLOT PREFERENCE : 6";
    "SLOT PREFERENCE : 7"; "SLOT PREFERENCE : 8"; "SLOT PREFERENCE : 9" ].
Proof. vm_compute. reflexivity. Qed.

(** ** Dicts *)

Lemma dict_get_set_eq (d : dict) k v : dict_get (dict_set d k v) k = Some v.
Proof.
  induction d as [|[k' v'] d IH]; simpl.
  - by rewrite decide_True.
  - destruct (decide (k' = k)) as [->|Hne]; simpl.
    + by rewrite decide_True.
    + by rewrite decide_False.
Qed.

Lemma dict_get_set_ne (d : dict) k k' v :
  k ≠ k' → dict_get (dict_set d k v) k' = dict_get d k'.
Proof.
  intros Hne. induction d as [|[k0 v0] d IH]; simpl.
  - by rewrite decide_False.
  - destruct (decide (k0 = k)) as [->|Hk]; simpl.
    + by rewrite !decide_False.
    + by rewrite IH.
Qed.

Lemma dict_get_None (d : dict) k : dict_get d k = None ↔ k ∉ dict_keys d.
Proof.
  unfold dict_keys. induction d as [|[k' v'] d IH]; simpl.
  - split; [intros _; apply not_elem_of_nil | done].
  - rewrite not_elem_of_cons. destruct (decide (k' = k)) as [->|Hk].
    + split; [done | by intros [? _]].
    + rewrite IH. split; [by intros ?; split | by intros [_ ?]].
Qed.

Lemma dict_set_absent (d : dict) k v :
  k ∉ dict_keys d → dict_set d k v = d ++ [(k, v)].
Proof.
  unfold dict_keys. induction d as [|[k' v'] d IH]; simpl; [done|].
  rewrite not_elem_of_cons. intros [Hk Hd].
  rewrite decide_False by done. by rewrite IH.
Qed.

Lemma dict_keys_set_present (d : dict) k v :
  k ∈ dict_keys d → dict_keys (dict_set d k v) = dict_keys d.
Proof.
  unfold dict_keys. induction d as [|[k' v'] d IH]; simpl.
  - by intros ?%elem_of_nil.
  - destruct (decide (k' = k)) as [->|Hk]; simpl; [done|].
    rewrite elem_of_cons. intros [?|Hd]; [congruence|]. f_equal. by apply IH.
Qed.

Lemma dict_keys_set (d : dict) k v k' :
  k' ∈ dict_keys (dict_set d k v) ↔ k' = k ∨ k' ∈ dict_keys d.
Proof.
  destruct (decide (k ∈ dict_keys d)) as [Hin|Hout].
  - rewrite dict_keys_set_present by done. split; [by right | by intros [->|?]].
  - rewrite dict_set_absent by done. unfold dict_keys.
    rewrite fmap_app, elem_of_app. simpl. rewrite list_elem_of_singleton.
    tauto.
Qed.

Lemma outcome_set (row : dict) o :
  outcome (dict_set row (Some "Allocated Slot") (VStr o)) = Some (VStr o).
Proof. apply dict_get_set_eq. Qed.

(** ** The preference loop *)

Lemma available_Some cap v s c :
  available cap v = Ok (Some (s, c)) → v = VStr s ∧ cap !! s = Some c ∧ 0 < c.
Proof.
  destruct v as [s'| |l]; simpl; try done.
  destruct (cap !! s') as [c'|] eqn:Hs; [|done].
  case_bool_decide; [|done]. intros [= -> ->]. done.
Qed.

Lemma first_fit_inv read cap row prefs a cap' :
  first_fit read cap row prefs = Ok (a, cap') →
  (a = None ∧ cap' = cap) ∨
  (∃ s c, a = Some s ∧ cap !! s = Some c ∧ 0 < c ∧ cap' = <[s := c - 1]> cap).
Proof.
  induction prefs as [|pref prefs IH]; simpl.
  - intros [= <- <-]. by left.
  - destruct (read row pref) as [v|e]; simpl; [|done].
    destruct (available cap v) as [[[s c]|]|e] eqn:Hav; simpl; [| |done].
    + intros [= <- <-]. apply available_Some in Hav as (_ & ? & ?).
      right. by exists s, c.
    + apply IH.
Qed.

(** ** The loop over the rows *)

Lemma count_outcome_cons s r rs :
  count_outcome s (r :: rs) =
  ((if decide (outcome r = Some (VStr s)) then 1 else 0) + count_outcome s rs)%nat.
Proof.
  unfold count_outcome. rewrite filter_cons. by case_decide.
Qed.

Section Rows.

Variable step : gmap string Z → dict → result (dict * gmap string Z).
Variable fieldnames : list string.

(** The outcomes [step] may assign that are not slot labels. *)
Variable fallbacks : list string.

Hypothesis step_transition : ∀ cap row row' cap',
  table_ok fallbacks cap → step cap row = Ok (row', cap') →
  transition fallbacks cap row row' cap'.

Lemma transition_lookup cap row row' cap' s :
  table_ok fallbacks cap →
  transition fallbacks cap row row' cap' →
  match cap !! s with
  | Some c =>
      ∃ c', cap' !! s = Some c' ∧ (0 ≤ c → 0 ≤ c') ∧
        c' + (if decide (outcome row' = Some (VStr s)) then 1 else 0) ≤ c
  | None => cap' !! s = None
  end.
Proof.
  intros [_ Hf] [o Ho|s0 c0 Hs0 Hc0].
  - destruct (cap !! s) as [c|] eqn:Hs; [|done].
    exists c. rewrite outcome_set. split; [done|]. split; [done|].
    rewrite decide_False; [lia|]. intros [= ->].
    specialize (Hf _ Ho). congruence.
  - rewrite outcome_set. destruct (decide (s0 = s)) as [->|Hne].
    + rewrite Hs0, lookup_insert_eq. exists (c0 - 1).
      split; [done|]. split; [lia|]. case_decide; lia.
    + rewrite lookup_insert_ne by done.
      destruct (cap !! s) as [c|] eqn:Hs; [|done].
      exists c. split; [done|]. split; [done|].
      rewrite decide_False by congruence. lia.
Qed.

Lemma transition_table_ok cap row row' cap' :
  transition fallbacks cap row row' cap' →
  table_ok fallbacks cap → table_ok fallbacks cap'.
Proof.
  intros Ht Hok. pose proof Hok as [He Hf]. split.
  - pose proof (transition_lookup _ _ _ _ "" Hok Ht) as H. by rewrite He in H.
  - intros o Ho. pose proof (transition_lookup _ _ _ _ o Hok Ht) as H.
    by rewrite (Hf o Ho) in H.
Qed.

Lemma write_rows_bound rows : ∀ cap out cap_end e,
  table_ok fallbacks cap →
  write_rows step fieldnames cap rows = (out, cap_end, e) →
  table_ok fallbacks cap_end ∧
  ∀ s, match cap !! s with
       | Some c =>
           ∃ c', cap_end !! s = Some c' ∧ (0 ≤ c → 0 ≤ c') ∧
             c' + Z.of_nat (count_outcome s out) ≤ c
       | None => cap_end !! s = None
       end.
Proof.
  assert (Hrefl : ∀ cap : gmap string Z, ∀ s,
    match cap !! s with
    | Some c => ∃ c', cap !! s = Some c' ∧ (0 ≤ c → 0 ≤ c') ∧
                  c' + Z.of_nat (count_outcome s []) ≤ c
    | None => cap !! s = None
    end).
  { intros cap s. destruct (cap !! s) as [c|] eqn:Hs; [|done].
    exists c. split; [done|]. split; [done|].
    unfold count_outcome; simpl; lia. }
  induction rows as [|row rows IH]; intros cap out cap_end e Hok; simpl.
  - intros [= <- <- <-]. split; [done | apply Hrefl].
  - destruct (step cap row) as [[row' cap1]|e1] eqn:Hstep.
    2:{ intros [= <- <- <-]. split; [done | apply Hrefl]. }
    pose proof (step_transition _ _ _ _ Hok Hstep) as Ht.
    pose proof (transition_table_ok _ _ _ _ Ht Hok) as Hok1.
    destruct (writerow fieldnames row') as [cells|e1].
    2:{ intros [= <- <- <-]. split; [done|]. intros s.
        pose proof (transition_lookup _ _ _ _ s Hok Ht) as H.
        destruct (cap !! s) as [c|]; [|done].
        destruct H as (c' & ? & ? & ?). exists c'.
        split; [done|]. split; [done|].
        unfold count_outcome; simpl. case_decide; lia. }
    destruct (write_rows step fieldnames cap1 rows) as [[out1 c1] e1] eqn:Hrec.
    intros [= <- <- <-].
    destruct (IH _ _ _ _ Hok1 Hrec) as [Hok_end Hrest]. split; [done|].
    intros s. pose proof (transition_lookup _ _ _ _ s Hok Ht) as H.
    specialize (Hrest s).
    destruct (cap !! s) as [c|].
    + destruct H as (c' & Hc' & Hnn & Hle). rewrite Hc' in Hrest.
      destruct Hrest as (c'' & ? & ? & ?). exists c''.
      rewrite count_outcome_cons. split; [done|]. split; [auto|].
      case_decide; lia.
    + by rewrite H in Hrest.
Qed.

Lemma write_rows_records rows : ∀ cap out cap_end e,
  table_ok fallbacks cap →
  write_rows step fieldnames cap rows = (out, cap_end, e) →
  ∀ i r, out !! i = Some r →
  ∃ row o, rows !! i = Some row ∧
    r = dict_set row (Some "Allocated Slot") (VStr o) ∧
    (o ∈ fallbacks ∨ is_Some (cap !! o)) ∧
    writerow fieldnames r = Ok (row_cells fieldnames r).
Proof.
  induction rows as [|row rows IH]; intros cap out cap_end e Hok; simpl.
  - intros [= <- <- <-] i r. by rewrite lookup_nil.
  - destruct (step cap row) as [[row' cap1]|e1] eqn:Hstep.
    2:{ intros [= <- <- <-] i r. by rewrite lookup_nil. }
    pose proof (step_transition _ _ _ _ Hok Hstep) as Ht.
    pose proof (transition_table_ok _ _ _ _ Ht Hok) as Hok1.
    destruct (writerow fieldnames row') as [cells|e1] eqn:Hw.
    2:{ intros [= <- <- <-] i r. by rewrite lookup_nil. }
    destruct (write_rows step fieldnames cap1 rows) as [[out1 c1] e1] eqn:Hrec.
    intros [= <- <- <-] [|i] r; simpl.
    + intros [= <-]. revert Hw. unfold writerow, dict_to_list.
      destruct (forallb _ _); [|done]. intros _.
      destruct Ht as [o Ho|s c Hs Hc].
      * exists row, o. split; [done|]. split; [done|]. split; [by left|done].
      * exists row, s. split; [done|]. split; [done|]. split; [by right|done].
    + intros Hi. destruct (IH _ _ _ _ Hok1 Hrec _ _ Hi) as (r0 & o & ? & ? & Ho & ?).
      exists r0, o. split; [done|]. split; [done|]. split; [|done].
      destruct Ho as [?|Ho]; [by left|right].
      pose proof (transition_lookup _ _ _ _ o Hok Ht) as Hl.
      destruct (cap !! o) as [c|]; [done|].
      rewrite Hl in Ho. by destruct Ho.
Qed.

Lemma write_rows_length rows : ∀ cap out cap_end e,
  write_rows step fieldnames cap rows = (out, cap_end, e) →
  match e with
  | None => length out = length rows
  | Some _ => (length out < length rows)%nat
  end.
Proof.
  induction rows as [|row rows IH]; intros cap out cap_end e; simpl.
  - by intros [= <- <- <-].
  - destruct (step cap row) as [[row' cap1]|e1].
    2:{ intros [= <- <- <-]. simpl. lia. }
    destruct (writerow fieldnames row') as [cells|e1].
    2:{ intros [= <- <- <-]. simpl. lia. }
    destruct (write_rows step fieldnames cap1 rows) as [[out1 c1] e1] eqn:Hrec.
    intros [= <- <- <-]. specialize (IH _ _ _ _ Hrec). simpl.
    destruct e1; lia.
Qed.

Lemma write_rows_app rows1 rows2 : ∀ cap,
  write_rows step fieldnames cap (rows1 ++ rows2) =
  match write_rows step fieldnames cap rows1 with
  | (out1, cap1, None) =>
      let '(out2, cap2, e) := write_rows step fieldnames cap1 rows2 in
      (out1 ++ out2, cap2, e)
  | (out1, cap1, Some e) => (out1, cap1, Some e)
  end.
Proof.
  induction rows1 as [|row rows1 IH]; intros cap; simpl.
  - by destruct (write_rows step fieldnames cap rows2) as [[??]?].
  - destruct (step cap row) as [[row' cap1]|e1]; [|done].
    destruct (writerow fieldnames row') as [cells|e1]; [|done].
    rewrite IH.
    destruct (write_rows step fieldnames cap1 rows1) as [[out1 c1] [e1|]]; [done|].
    by destruct (write_rows step fieldnames c1 rows2) as [[??]?].
Qed.

(** The run split at input record [i]: the records before it, its own
    step and write, and the records after it. *)
Lemma write_rows_at rows cap out c e i row :
  write_rows step fieldnames cap rows = (out, c, e) →
  rows !! i = Some row →
  match write_rows step fieldnames cap (take i rows) with
  | (o1, c1, None) =>
      length o1 = i ∧
      match step c1 row with
      | Ok (r', c2) =>
          match writerow fieldnames r' with
          | Ok _ =>
              ∃ o2, write_rows step fieldnames c2 (drop (S i) rows) = (o2, c, e) ∧
                    out = o1 ++ r' :: o2
          | Raise ex => out = o1 ∧ c = c2 ∧ e = Some ex
          end
      | Raise ex => out = o1 ∧ c = c1 ∧ e = Some ex
      end
  | (o1, c1, Some ex) => out = o1 ∧ c = c1 ∧ e = Some ex ∧ (length o1 < i)%nat
  end.
Proof.
  intros Hrun Hrow. pose proof (take_drop_middle _ _ _ Hrow) as Hsplit.
  pose proof (lookup_lt_Some _ _ _ Hrow) as Hlt.
  rewrite <- Hsplit, write_rows_app in Hrun.
  destruct (write_rows step fieldnames cap (take i rows)) as [[o1 c1] e1] eqn:Hpre.
  pose proof (write_rows_length _ _ _ _ _ Hpre) as Hlen.
  rewrite length_take, Nat.min_l in Hlen by lia.
  destruct e1 as [ex|].
  - by injection Hrun as <- <- <-.
  - split; [done|]. simpl in Hrun.
    destruct (step c1 row) as [[r' c2]|ex].
    2:{ injection Hrun as <- <- <-. by rewrite app_nil_r. }
    destruct (writerow fieldnames r') as [cells|ex].
    2:{ injection Hrun as <- <- <-. by rewrite app_nil_r. }
    destruct (write_rows step fieldnames c2 (drop (S i) rows)) as [[o2 c3] e3].
    injection Hrun as <- <- <-. by exists o2.
Qed.

End Rows.

(** ** Reading and writing rows *)

Lemma foldl_dict_set_keys (kvs : list (string * string)) : ∀ (d : dict) k,
  k ∈ dict_keys (foldl (λ d kv, dict_set d (Some kv.1) (VStr kv.2)) d kvs) ↔
  k ∈ dict_keys d ∨ k ∈ (Some <$> kvs.*1).
Proof.
  induction kvs as [|[k0 v0] kvs IH]; intros d k; simpl.
  - rewrite elem_of_nil. tauto.
  - rewrite IH, dict_keys_set, elem_of_cons. tauto.
Qed.

Lemma dict_zip_keys ks vs k :
  k ∈ dict_keys (dict_zip ks vs) → k ∈ (Some <$> ks).
Proof.
  unfold dict_zip. rewrite foldl_dict_set_keys. intros [H|H].
  - by apply elem_of_nil in H.
  - apply list_elem_of_fmap in H as (k' & -> & Hk').
    apply list_elem_of_fmap_2.
    apply list_elem_of_fmap in Hk' as ([k1 v1] & -> & Hin).
    by apply elem_of_zip_l in Hin.
Qed.

Lemma foldl_dict_set_diag (ks : list string) : ∀ d : dict,
  (∀ k v, dict_get d (Some k) = Some v → v = VStr k) →
  ∀ k v,
    dict_get (foldl (λ d kv, dict_set d (Some kv.1) (VStr kv.2)) d (zip ks ks))
      (Some k) = Some v →
    v = VStr k.
Proof.
  induction ks as [|k0 ks IH]; intros d Hd k v; simpl; [apply Hd|].
  apply IH. intros k1 v1. destruct (decide (k0 = k1)) as [->|Hne].
  - rewrite dict_get_set_eq. congruence.
  - rewrite dict_get_set_ne by congruence. apply Hd.
Qed.

Lemma dict_zip_diag_get ks k :
  k ∈ ks → dict_get (dict_zip ks ks) (Some k) = Some (VStr k).
Proof.
  intros Hk. destruct (dict_get (dict_zip ks ks) (Some k)) as [v|] eqn:Hget.
  - f_equal. revert Hget. apply foldl_dict_set_diag. done.
  - apply dict_get_None in Hget. exfalso. apply Hget.
    unfold dict_zip. apply foldl_dict_set_keys. right.
    rewrite fst_zip by done. by apply list_elem_of_fmap_2.
Qed.

Lemma writeheader_ok fieldnames :
  writeheader fieldnames = Ok (VStr <$> fieldnames).
Proof.
  unfold writeheader, writerow, dict_to_list.
  assert (forallb (λ k, bool_decide (k ∈ (Some <$> fieldnames)))
            (dict_keys (dict_zip fieldnames fieldnames)) = true) as ->.
  { apply forallb_forall. intros k Hk%list_elem_of_In.
    apply bool_decide_eq_true. by apply dict_zip_keys in Hk. }
  f_equal. unfold row_cells. apply list_fmap_ext. intros i k Hk.
  rewrite dict_zip_diag_get; [done|]. by eapply list_elem_of_lookup_2.
Qed.

Lemma run_from_eq step fieldnames cap rows :
  run_from step fieldnames cap rows =
  let '(out, c, e) := write_rows step fieldnames cap rows in
  Run fieldnames (Some (VStr <$> fieldnames)) out c e.
Proof. unfold run_from. by rewrite writeheader_ok. Qed.

(** ** The two row bodies *)

Lemma outcome_of_slot (cap : gmap string Z) s c :
  cap !! "" = None → cap !! s = Some c → outcome_of (Some s) = s.
Proof.
  intros He Hs. unfold outcome_of, truthy.
  rewrite bool_decide_eq_false_2; [done|]. intros ->. congruence.
Qed.

Lemma assign_transition fallbacks cap row a cap' :
  table_ok fallbacks cap → "No slot allocated" ∈ fallbacks →
  (a = None ∧ cap' = cap) ∨
  (∃ s c, a = Some s ∧ cap !! s = Some c ∧ 0 < c ∧ cap' = <[s := c - 1]> cap) →
  transition fallbacks cap row
    (dict_set row (Some "Allocated Slot") (VStr (outcome_of a))) cap'.
Proof.
  intros [He _] Hno [[-> ->]|(s & c & -> & Hs & Hc & ->)].
  - by apply transition_fallback.
  - rewrite (outcome_of_slot cap s c) by done. by apply transition_slot.
Qed.

Lemma gym_allocate_row_transition cap row row' cap' :
  table_ok ["No slot allocated"] cap →
  Gym.allocate_row cap row = Ok (row', cap') →
  transition ["No slot allocated"] cap row row' cap'.
Proof.
  intros Hok. unfold Gym.allocate_row.
  destruct (first_fit Gym.read cap row Gym.preference_columns)
    as [[a cap1]|e] eqn:Hff; [|done].
  cbv beta iota delta [mbind result_bind].
  intros [= <- <-]. apply assign_transition; [done|set_solver|].
  by eapply first_fit_inv.
Qed.

Lemma iiitk_allocate_row_transition cap row row' cap' :
  table_ok ["No slot allocated"; "Invalid email domain"] cap →
  Iiitk.allocate_row cap row = Ok (row', cap') →
  transition ["No slot allocated"; "Invalid email domain"] cap row row' cap'.
Proof.
  intros Hok. unfold Iiitk.allocate_row.
  destruct (Iiitk.get_strip row "Email") as [e|ex]; [|done].
  cbv beta iota delta [mbind result_bind].
  destruct (negb (endswith (lower e) Iiitk.domain)).
  - intros [= <- <-]. apply transition_fallback. set_solver.
  - destruct (first_fit Iiitk.read cap row Iiitk.preference_columns)
      as [[a cap1]|ex] eqn:Hff; [|done].
    intros [= <- <-]. apply assign_transition; [done|set_solver|].
    by eapply first_fit_inv.
Qed.

Lemma gym_capacity_ok : table_ok ["No slot allocated"] Gym.capacity.
Proof.
  split; [by vm_compute|].
  intros o ->%list_elem_of_singleton. by vm_compute.
Qed.

Lemma iiitk_capacity_ok :
  table_ok ["No slot allocated"; "Invalid email domain"] Iiitk.capacity.
Proof.
  split; [by vm_compute|].
  intros o Ho. apply elem_of_cons in Ho as [->|Ho]; [by vm_compute|].
  apply list_elem_of_singleton in Ho as ->. by vm_compute.
Qed.

(** ** Both variants *)

Lemma step_transition_of v cap row row' cap' :
  table_ok (fallbacks_of v) cap →
  allocate_row_of v cap row = Ok (row', cap') →
  transition (fallbacks_of v) cap row row' cap'.
Proof.
  destruct v; [apply gym_allocate_row_transition
              | apply iiitk_allocate_row_transition].
Qed.

Lemma capacity_of_ok v : table_ok (fallbacks_of v) (capacity_of v).
Proof. destruct v; [apply gym_capacity_ok | apply iiitk_capacity_ok]. Qed.

Lemma capacity_of_nonneg v s c : capacity_of v !! s = Some c → 0 ≤ c.
Proof.
  intros Hs. destruct v; apply elem_of_list_to_map_2 in Hs;
    repeat (apply elem_of_cons in Hs as [[= _ ->]|Hs]; [lia|]);
    by apply elem_of_nil in Hs.
Qed.

Lemma allocate_slots_of_cons v names lines :
  allocate_slots_of v (names :: lines) =
  let '(out, c, e) :=
    write_rows (allocate_row_of v) (fieldnames_of v names) (capacity_of v)
      (DictReader names lines) in
  Run (fieldnames_of v names) (Some (VStr <$> fieldnames_of v names)) out c e.
Proof. destruct v; simpl; apply run_from_eq. Qed.

Lemma allocate_slots_of_nil v :
  allocate_slots_of v [] = Run [] None [] (capacity_of v) (Some TypeError).
Proof. by destruct v. Qed.

(** The run as one call of the loop over the input records. *)
Lemma records_of_run v infile :
  ∃ out c e,
    write_rows (allocate_row_of v) (fieldnames_of v (hd [] infile))
      (capacity_of v) (input_records infile) = (out, c, e) ∧
    records (allocate_slots_of v infile) = out ∧
    (infile ≠ [] → capacity_end (allocate_slots_of v infile) = c ∧
                   raised (allocate_slots_of v infile) = e).
Proof.
  destruct infile as [|names lines].
  - rewrite allocate_slots_of_nil. simpl. by eexists _, _, _.
  - rewrite allocate_slots_of_cons. simpl.
    destruct (write_rows _ _ _ _) as [[out c] e]. by eexists _, _, _.
Qed.

Lemma count_outcome_zero s rs r :
  count_outcome s rs = 0%nat → r ∈ rs → outcome r ≠ Some (VStr s).
Proof.
  unfold count_outcome. intros Hlen Hr Ho.
  assert (r ∈ filter (λ r, outcome r = Some (VStr s)) rs) as Hin
    by by apply list_elem_of_filter.
  apply nil_length_inv in Hlen. rewrite Hlen in Hin. by apply elem_of_nil in Hin.
Qed.

(** C1. Capacity invariant: in either variant and for any input, the number
    of output records whose outcome is the slot [s] of the capacity table
    is at most the capacity [c0] the table configures for [s]. *)
Theorem capacity_invariant v infile s c0 :
  capacity_of v !! s = Some c0 →
  Z.of_nat (count_outcome s (records (allocate_slots_of v infile))) ≤ c0.
Proof.
  intros Hs. destruct (records_of_run v infile) as (out & c & e & Hrun & -> & _).
  destruct (write_rows_bound _ _ _ (step_transition_of v) _ _ _ _ _
              (capacity_of_ok v) Hrun) as [_ Hb].
  specialize (Hb s). rewrite Hs in Hb. destruct Hb as (c' & _ & Hnn & Hle).
  pose proof (capacity_of_nonneg v s c0 Hs). lia.
Qed.

Lemma capacity_invariant_witness :
  Gym.capacity !! "SLOT 4 (5:30PM TO 7:00PM)" = Some 5 ∧
  Z.of_nat (count_outcome "SLOT 4 (5:30PM TO 7:00PM)"
    (records (Gym.allocate_slots
      [ ["Name"; "SLOT PREFERENCE : 1"; "SLOT PREFERENCE : 2";
         "SLOT PREFERENCE : 3"];
        ["asha"; "SLOT 4 (5:30PM TO 7:00PM)"; ""; ""] ]))) ≤ 5.
Proof.
  split; [vm_compute; reflexivity|].
  apply (capacity_invariant Base). vm_compute; reflexivity.
Defined.

(** ** First fit *)

Lemma no_room_available cap slot : no_room cap slot → available cap slot = Ok None.
Proof.
  destruct slot as [s| |l]; simpl; [|done..].
  intros Hno. destruct (cap !! s) as [c|] eqn:Hs; [|done].
  case_bool_decide; [|done]. exfalso. apply Hno. by exists c.
Qed.

Lemma has_room_available cap s c :
  has_room cap s → cap !! s = Some c → available cap (VStr s) = Ok (Some (s, c)).
Proof.
  intros (c' & Hc' & Hpos) Hs. simpl. rewrite Hs.
  rewrite bool_decide_eq_true_2; [done|]. congruence.
Qed.

Lemma first_fit_first_available read cap row prefs : ∀ i s c,
  first_available read cap row prefs i s → cap !! s = Some c →
  first_fit read cap row prefs = Ok (Some s, <[s := c - 1]> cap).
Proof.
  induction prefs as [|pref prefs IH]; intros i s c ([p [Hp Hread]] & Hroom & Hbefore) Hs.
  - by rewrite lookup_nil in Hp.
  - destruct i as [|i]; simpl in *.
    + injection Hp as ->. rewrite Hread.
      cbv beta iota delta [mbind result_bind].
      by rewrite (has_room_available cap s c).
    + destruct (Hbefore 0%nat pref) as (slot & Hslot & Hno); [lia|done|].
      rewrite Hslot. cbv beta iota delta [mbind result_bind].
      rewrite (no_room_available _ _ Hno). apply (IH i); [|done].
      split; [by exists p|]. split; [done|].
      intros j q Hj Hq. apply (Hbefore (S j) q); [lia|done].
Qed.

Lemma first_available_take read cap row prefs i s :
  first_available read cap row prefs i s →
  first_available read cap row (take (S i) prefs) i s.
Proof.
  intros ([p [Hp Hread]] & Hroom & Hbefore). split; [|split; [done|]].
  - exists p. by rewrite lookup_take_lt by lia.
  - intros j q Hj. rewrite lookup_take_lt by lia. by apply Hbefore.
Qed.

Lemma same_slots_ok v cap :
  dom cap = dom (capacity_of v) → table_ok (fallbacks_of v) cap.
Proof.
  intros Hdom. destruct (capacity_of_ok v) as [He Hf]. split.
  - apply not_elem_of_dom. rewrite Hdom. by apply not_elem_of_dom.
  - intros o Ho. apply not_elem_of_dom. rewrite Hdom.
    apply not_elem_of_dom. by apply Hf.
Qed.

Lemma allocate_row_of_matching v cap row a cap' :
  reaches_matching v row →
  first_fit (read_of v) cap row (preference_columns_of v) = Ok (a, cap') →
  allocate_row_of v cap row =
  Ok (dict_set row (Some "Allocated Slot") (VStr (outcome_of a)), cap').
Proof.
  destruct v;
    cbv [reaches_matching read_of preference_columns_of allocate_row_of].
  - intros _ Hff. unfold Gym.allocate_row. by rewrite Hff.
  - intros (e & He & Hdom) Hff. unfold Iiitk.allocate_row. rewrite He.
    cbv beta iota delta [mbind result_bind].
    by rewrite Hdom, Hff.
Qed.

Lemma allocate_row_first_available v cap row i s c :
  cap !! "" = None →
  reaches_matching v row →
  first_available (read_of v) cap row (preference_columns_of v) i s →
  cap !! s = Some c →
  allocate_row_of v cap row =
    Ok (dict_set row (Some "Allocated Slot") (VStr s), <[s := c - 1]> cap).
Proof.
  intros He Hreach Hfirst Hs.
  pose proof (first_fit_first_available _ _ _ _ _ _ _ Hfirst Hs) as Hff.
  rewrite (allocate_row_of_matching v cap row _ _ Hreach Hff).
  by rewrite (outcome_of_slot cap s c).
Qed.

(** ** The table along a run *)

Lemma capacity_when_inv v infile i ci :
  capacity_when v infile i = Some ci →
  ∃ o1, write_rows (allocate_row_of v) (fieldnames_of v (hd [] infile))
          (capacity_of v) (take i (input_records infile)) = (o1, ci, None).
Proof.
  unfold capacity_when.
  destruct (write_rows _ _ _ _) as [[o1 c1] [ex|]]; [done|].
  intros [= ->]. by exists o1.
Qed.

Lemma capacity_when_ok v infile i ci :
  capacity_when v infile i = Some ci →
  table_ok (fallbacks_of v) ci ∧
  ∀ s c0, capacity_of v !! s = Some c0 → ∃ c, ci !! s = Some c ∧ 0 ≤ c ≤ c0.
Proof.
  intros [o1 Hpre]%capacity_when_inv.
  destruct (write_rows_bound _ _ _ (step_transition_of v) _ _ _ _ _
              (capacity_of_ok v) Hpre) as [Hok Hb].
  split; [done|]. intros s c0 Hs. specialize (Hb s). rewrite Hs in Hb.
  destruct Hb as (c & Hc & Hnn & Hle). exists c. split; [done|].
  pose proof (capacity_of_nonneg v s c0 Hs). lia.
Qed.

(** What processing input record [i] does to the run. *)
Lemma run_at v infile i row ci :
  input_records infile !! i = Some row →
  capacity_when v infile i = Some ci →
  match allocate_row_of v ci row with
  | Ok (r', cj) =>
      match writerow (fieldnames_of v (hd [] infile)) r' with
      | Ok _ =>
          records (allocate_slots_of v infile) !! i = Some r' ∧
          capacity_when v infile (S i) = Some cj ∧
          ∃ o1 o2 c e,
            records (allocate_slots_of v infile) = o1 ++ r' :: o2 ∧
            length o1 = i ∧
            write_rows (allocate_row_of v) (fieldnames_of v (hd [] infile)) cj
              (drop (S i) (input_records infile)) = (o2, c, e)
      | Raise _ =>
          length (records (allocate_slots_of v infile)) = i ∧
          capacity_when v infile (S i) = None
      end
  | Raise _ =>
      length (records (allocate_slots_of v infile)) = i ∧
      capacity_when v infile (S i) = None
  end.
Proof.
  intros Hrow Hci. destruct (capacity_when_inv _ _ _ _ Hci) as [o1 Hpre].
  destruct (records_of_run v infile) as (out & c & e & Hrun & -> & _).
  pose proof (write_rows_at _ _ _ _ _ _ _ _ _ Hrun Hrow) as Hat.
  rewrite Hpre in Hat. destruct Hat as [Hlen Hat].
  unfold capacity_when at 1 2 3. rewrite (take_S_r _ _ _ Hrow), write_rows_app, Hpre.
  simpl.
  destruct (allocate_row_of v ci row) as [[r' cj]|ex].
  2:{ destruct Hat as (-> & _). done. }
  destruct (writerow _ r') as [cells|ex].
  2:{ destruct Hat as (-> & _). done. }
  destruct Hat as (o2 & Hrest & ->). split; [|split; [done|]].
  - by rewrite list_lookup_middle.
  - by exists o1, o2, c, e.
Qed.

(** Every record written is the result of the row body on the input
    record of the same index, run on the table as it stood then. *)
Lemma record_step v infile i out :
  records (allocate_slots_of v infile) !! i = Some out →
  ∃ row ci cj,
    input_records infile !! i = Some row ∧
    capacity_when v infile i = Some ci ∧
    allocate_row_of v ci row = Ok (out, cj) ∧
    capacity_when v infile (S i) = Some cj.
Proof.
  intros Hout.
  destruct (records_of_run v infile) as (rs & c & e & Hrun & Hrs & _).
  assert (is_Some (input_records infile !! i)) as [row Hrow].
  { apply lookup_lt_is_Some. apply lookup_lt_Some in Hout. rewrite Hrs in Hout.
    pose proof (write_rows_length _ _ _ _ _ _ _ Hrun). destruct e; lia. }
  pose proof (write_rows_at _ _ _ _ _ _ _ _ _ Hrun Hrow) as Hat.
  destruct (write_rows _ _ _ (take i _)) as [[o1 c1] [ex|]] eqn:Hpre.
  { destruct Hat as (-> & _ & _ & Hlt). rewrite Hrs in Hout.
    apply lookup_lt_Some in Hout. lia. }
  assert (capacity_when v infile i = Some c1) as Hci
    by (unfold capacity_when; by rewrite Hpre).
  pose proof (run_at v infile i row c1 Hrow Hci) as Hrun_at.
  exists row, c1.
  destruct (allocate_row_of v c1 row) as [[r' cj]|ex].
  2:{ destruct Hrun_at as [Hlen _]. apply lookup_lt_Some in Hout. lia. }
  destruct (writerow _ r') as [cells|ex].
  2:{ destruct Hrun_at as [Hlen _]. apply lookup_lt_Some in Hout. lia. }
  destruct Hrun_at as (Hrec & Hcj & _). exists cj.
  assert (r' = out) as -> by congruence. done.
Qed.

Lemma capacity_when_dom v infile i ci :
  capacity_when v infile i = Some ci → dom ci = dom (capacity_of v).
Proof.
  intros [o1 Hpre]%capacity_when_inv.
  destruct (write_rows_bound _ _ _ (step_transition_of v) _ _ _ _ _
              (capacity_of_ok v) Hpre) as [_ Hb].
  apply set_eq. intros s. rewrite !elem_of_dom. specialize (Hb s).
  destruct (capacity_of v !! s) as [c0|].
  - destruct Hb as (c & -> & _). split; by eexists.
  - rewrite Hb. done.
Qed.

(** ** The domain check *)

Lemma lstrip_all_space s : all_space s = true → lstrip s = "".
Proof.
  induction s as [|c s IH]; simpl; [done|].
  intros [Hc Hs]%andb_true_iff. rewrite Hc. by apply IH.
Qed.

Lemma strip_all_space s : all_space s = true → strip s = "".
Proof. intros Hs. unfold strip. by rewrite (lstrip_all_space s Hs). Qed.

Lemma iiitk_allocate_row_invalid cap row e :
  Iiitk.get_strip row "Email" = Ok e →
  endswith (lower e) Iiitk.domain = false →
  Iiitk.allocate_row cap row =
    Ok (dict_set row (Some "Allocated Slot") (VStr "Invalid email domain"), cap).
Proof.
  intros He Hend. unfold Iiitk.allocate_row. rewrite He.
  cbv beta iota delta [mbind result_bind]. by rewrite Hend.
Qed.

(** In a run of the extended variant, the record written for an input
    record the row body rejects carries the rejection and leaves the
    table as it was. *)
Lemma iiitk_rejected_in_run infile i row out :
  (∀ cap, Iiitk.allocate_row cap row =
     Ok (dict_set row (Some "Allocated Slot") (VStr "Invalid email domain"), cap)) →
  input_records infile !! i = Some row →
  records (Iiitk.allocate_slots infile) !! i = Some out →
  outcome out = Some (VStr "Invalid email domain") ∧
  capacity_when Extended infile (S i) = capacity_when Extended infile i.
Proof.
  intros Hrow Hinp Hout.
  destruct (record_step Extended infile i out Hout)
    as (row0 & ci & cj & Hinp0 & Hci & Hstep & Hcj).
  assert (row0 = row) as -> by congruence.
  simpl in Hstep. rewrite Hrow in Hstep. injection Hstep as <- <-.
  split; [apply outcome_set | congruence].
Qed.

(** C5. In the extended variant, when the trimmed and lowercased e-mail of
    a record does not end with the required domain, the row body returns
    the record with outcome "Invalid email domain" and the capacity table
    unchanged, whatever the table holds; the same happens for any record
    with that "Email" field, whatever its preference columns hold, so they
    are not read; and in any run the output record of such an input record
    has that outcome and the table is the same before and after it. *)
Theorem invalid_domain_short_circuit cap row e :
  Iiitk.get_strip row "Email" = Ok e →
  endswith (lower e) Iiitk.domain = false →
  Iiitk.allocate_row cap row =
    Ok (dict_set row (Some "Allocated Slot") (VStr "Invalid email domain"), cap) ∧
  (∀ row',
     dict_get row' (Some "Email") = dict_get row (Some "Email") →
     Iiitk.allocate_row cap row' =
       Ok (dict_set row' (Some "Allocated Slot") (VStr "Invalid email domain"),
           cap)) ∧
  (∀ infile i out,
     input_records infile !! i = Some row →
     records (Iiitk.allocate_slots infile) !! i = Some out →
     outcome out = Some (VStr "Invalid email domain") ∧
     capacity_when Extended infile (S i) = capacity_when Extended infile i).
Proof.
  intros He Hend. split; [by apply (iiitk_allocate_row_invalid cap row e)|].
  split.
  - intros row' Hsame. apply (iiitk_allocate_row_invalid cap row' e); [|done].
    unfold Iiitk.get_strip in *. by rewrite Hsame.
  - intros infile i out. apply iiitk_rejected_in_run.
    intros cap'. by apply (iiitk_allocate_row_invalid cap' row e).
Qed.

Lemma invalid_domain_short_circuit_witness :
  let row := reader_row
    ["Email"; "SLOT PREFERENCE : 1"]
    ["a@other.com"; "SLOT 6 (5:30PM TO 7:00PM)"] in
  has_room Iiitk.capacity "SLOT 6 (5:30PM TO 7:00PM)" ∧
  Iiitk.allocate_row Iiitk.capacity row =
    Ok (dict_set row (Some "Allocated Slot") (VStr "Invalid email domain"),
        Iiitk.capacity).
Proof.
  intros row. split.
  - exists 1. split; [vm_compute; reflexivity | lia].
  - refine (proj1 (invalid_domain_short_circuit Iiitk.capacity row
                     "a@other.com" _ _)); vm_compute; reflexivity.
Defined.

(** In the extended variant a record without the key "Email", or whose
    "Email" is a string that is empty or whitespace only, gets the outcome
    "Invalid email domain": the row body returns normally, with that
    outcome and the table unchanged, and in any run the output record of
    such an input record has that outcome. *)
Lemma missing_or_blank_email cap row :
  dict_get row (Some "Email") = None ∨
  (∃ e, dict_get row (Some "Email") = Some (VStr e) ∧ all_space e = true) →
  Iiitk.allocate_row cap row =
    Ok (dict_set row (Some "Allocated Slot") (VStr "Invalid email domain"), cap) ∧
  (∀ infile i out,
     input_records infile !! i = Some row →
     records (Iiitk.allocate_slots infile) !! i = Some out →
     outcome out = Some (VStr "Invalid email domain")).
Proof.
  intros Hemail.
  assert (Iiitk.get_strip row "Email" = Ok "") as He.
  { unfold Iiitk.get_strip. destruct Hemail as [->|(e & -> & He)]; [done|].
    by rewrite (strip_all_space e He). }
  split; [by apply (iiitk_allocate_row_invalid cap row "")|].
  intros infile i out Hinp Hout.
  apply (iiitk_rejected_in_run infile i row out); [|done..].
  intros cap'. by apply (iiitk_allocate_row_invalid cap' row "").
Qed.

Example blank_email_rejected :
  let row := reader_row ["Email"; "SLOT PREFERENCE : 1"]
               ["  "; "SLOT 6 (5:30PM TO 7:00PM)"] in
  Iiitk.allocate_row Iiitk.capacity row =
    Ok (dict_set row (Some "Allocated Slot") (VStr "Invalid email domain"),
        Iiitk.capacity).
Proof.
  intros row. apply missing_or_blank_email.
  right. exists "  ". split; vm_compute; reflexivity.
Qed.

(** ** Records in and out *)

(** The outcome of every output record is a fallback outcome of the variant
    or a slot of its capacity table. *)
Lemma outcome_domain v infile out :
  out ∈ records (allocate_slots_of v infile) →
  ∃ o, outcome out = Some (VStr o) ∧
       (o ∈ fallbacks_of v ∨ is_Some (capacity_of v !! o)).
Proof.
  intros [i Hout]%list_elem_of_lookup_1.
  destruct (records_of_run v infile) as (rs & c & e & Hrun & Hrs & _).
  rewrite Hrs in Hout.
  destruct (write_rows_records _ _ _ (step_transition_of v) _ _ _ _ _
              (capacity_of_ok v) Hrun _ _ Hout) as (inp & o & Hinp & -> & Ho & _).
  exists o. split; [apply outcome_set|done].
Qed.

(** A run that ends without an exception has one output record for each
    input record; one that raises has fewer. *)
Lemma coverage_of_completed_run v infile :
  match raised (allocate_slots_of v infile) with
  | None =>
      length (records (allocate_slots_of v infile)) =
      length (input_records infile)
  | Some _ =>
      infile = [] ∨
      (length (records (allocate_slots_of v infile)) <
       length (input_records infile))%nat
  end.
Proof.
  destruct infile as [|names lines].
  - rewrite allocate_slots_of_nil. simpl. by left.
  - destruct (records_of_run v (names :: lines)) as (rs & c & e & Hrun & -> & He).
    destruct He as [_ ->]; [done|].
    pose proof (write_rows_length _ _ _ _ _ _ _ Hrun) as Hlen.
    destruct e; [by right|done].
Qed.

(** ** Runs that complete *)

Lemma foldl_dict_set_str (kvs : list (string * string)) : ∀ d : dict,
  (∀ k v, dict_get d k = Some v → ∃ s, v = VStr s) →
  ∀ k v,
    dict_get (foldl (λ d kv, dict_set d (Some kv.1) (VStr kv.2)) d kvs) k = Some v →
    ∃ s, v = VStr s.
Proof.
  induction kvs as [|[k0 v0] kvs IH]; intros d Hd k v; simpl; [apply Hd|].
  apply IH. intros k1 v1. destruct (decide (Some k0 = k1)) as [<-|Hne].
  - rewrite dict_get_set_eq. intros [= <-]. by exists v0.
  - rewrite dict_get_set_ne by done. apply Hd.
Qed.

Lemma reader_row_full names line :
  length line = length names → reader_row names line = dict_zip names line.
Proof.
  intros Hlen. unfold reader_row. rewrite Hlen.
  by rewrite Nat.ltb_irrefl.
Qed.

Lemma dict_zip_get names line k :
  length line = length names →
  match dict_get (dict_zip names line) (Some k) with
  | Some v => k ∈ names ∧ ∃ s, v = VStr s
  | None => k ∉ names
  end.
Proof.
  intros Hlen. destruct (dict_get _ _) as [v|] eqn:Hget.
  - split.
    + assert (Some k ∈ dict_keys (dict_zip names line)) as Hin.
      { destruct (decide (Some k ∈ dict_keys (dict_zip names line))); [done|].
        apply dict_get_None in n. congruence. }
      apply dict_zip_keys, list_elem_of_fmap in Hin as (k' & [= ->] & ?). done.
    + revert Hget. apply foldl_dict_set_str. done.
  - apply dict_get_None in Hget. intros Hk. apply Hget.
    unfold dict_zip. apply foldl_dict_set_keys. right.
    rewrite fst_zip by lia. by apply list_elem_of_fmap_2.
Qed.

Lemma first_fit_total read cap row prefs :
  (∀ pref, pref ∈ prefs → ∃ s, read row pref = Ok (VStr s)) →
  ∃ a cap', first_fit read cap row prefs = Ok (a, cap').
Proof.
  induction prefs as [|pref prefs IH]; intros Hread; simpl; [by eexists _, _|].
  destruct (Hread pref) as [s ->]; [by left|].
  cbv beta iota delta [mbind result_bind]. simpl.
  destruct (cap !! s) as [c|]; [case_bool_decide; [by eexists _, _|]|];
    apply IH; intros p Hp; apply Hread; by right.
Qed.

Lemma allocate_row_total v names line cap :
  rectangular v (names :: [line]) → line ≠ [] →
  ∃ o cap',
    allocate_row_of v cap (reader_row names line) =
    Ok (dict_set (reader_row names line) (Some "Allocated Slot") (VStr o), cap').
Proof.
  intros [Hline Hprefs] Hne.
  apply Forall_singleton in Hline as [?|Hlen]; [done|].
  rewrite (reader_row_full _ _ Hlen).
  set (row := dict_zip names line).
  assert (∀ k, ∃ s, Iiitk.get_strip row k = Ok s) as Hstrip.
  { intros k. unfold Iiitk.get_strip.
    pose proof (dict_zip_get names line k Hlen) as Hk. fold row in Hk.
    destruct (dict_get row (Some k)) as [w|]; [|by eexists].
    destruct Hk as [_ [s ->]]. by eexists. }
  destruct v; cbv [allocate_row_of].
  - destruct (first_fit_total Gym.read cap row Gym.preference_columns)
      as (a & cap' & Hff).
    { intros pref Hpref. unfold Gym.read.
      pose proof (dict_zip_get names line pref Hlen) as Hk. fold row in Hk.
      destruct (dict_get row (Some pref)) as [w|].
      - destruct Hk as [_ [s ->]]. by exists s.
      - exfalso. apply Hk. by eapply Forall_forall in Hprefs. }
    unfold Gym.allocate_row. rewrite Hff. by eexists _, _.
  - unfold Iiitk.allocate_row. destruct (Hstrip "Email") as [e ->].
    cbv beta iota delta [mbind result_bind].
    destruct (negb _); [by eexists _, _|].
    destruct (first_fit_total Iiitk.read cap row Iiitk.preference_columns)
      as (a & cap' & Hff).
    { intros pref _. unfold Iiitk.read. destruct (Hstrip pref) as [s ->].
      by exists s. }
    rewrite Hff. by eexists _, _.
Qed.

Lemma fieldnames_of_spec v names k :
  k ∈ fieldnames_of v names ↔ k ∈ names ∨ k = "Allocated Slot".
Proof.
  destruct v; cbv [fieldnames_of Gym.fieldnames Iiitk.fieldnames].
  - rewrite elem_of_app, list_elem_of_singleton. tauto.
  - case_bool_decide.
    + split; [by left | by intros [?| ->]].
    + rewrite elem_of_app, list_elem_of_singleton. tauto.
Qed.

Lemma writerow_total v names line o :
  length line = length names →
  writerow (fieldnames_of v names)
    (dict_set (reader_row names line) (Some "Allocated Slot") (VStr o)) =
  Ok (row_cells (fieldnames_of v names)
    (dict_set (reader_row names line) (Some "Allocated Slot") (VStr o))).
Proof.
  intros Hlen. unfold writerow, dict_to_list.
  rewrite (reader_row_full _ _ Hlen).
  match goal with |- (if ?b then _ else _) = _ => assert (b = true) as -> end;
    [|done].
  apply forallb_forall. intros k Hk%list_elem_of_In.
  apply bool_decide_eq_true. apply dict_keys_set in Hk as [->|Hk].
  - apply list_elem_of_fmap_2, fieldnames_of_spec. by right.
  - apply dict_zip_keys, list_elem_of_fmap in Hk as (k' & -> & ?).
    apply list_elem_of_fmap_2, fieldnames_of_spec. by left.
Qed.

(** On a rectangular input the run raises nothing and writes one record
    for each input record. *)
Lemma rectangular_run_completes v infile :
  rectangular v infile →
  raised (allocate_slots_of v infile) = None ∧
  length (records (allocate_slots_of v infile)) = length (input_records infile).
Proof.
  intros Hrect. destruct infile as [|names lines]; [done|].
  assert (raised (allocate_slots_of v (names :: lines)) = None) as Hnone.
  2:{ split; [done|]. pose proof (coverage_of_completed_run v (names :: lines)) as H.
      by rewrite Hnone in H. }
  rewrite allocate_slots_of_cons. destruct Hrect as [Hlines Hprefs].
  generalize (capacity_of v). induction lines as [|line lines IH]; intros cap.
  - done.
  - apply Forall_cons in Hlines as [Hline Hlines]. specialize (IH Hlines).
    unfold DictReader in *. rewrite filter_cons. case_decide as Hblank.
    + destruct Hline as [?|Hlen]; [done|]. rewrite fmap_cons. simpl.
      destruct (allocate_row_total v names line cap) as (o & cap' & ->).
      { split; [|done]. apply Forall_singleton. by right. }
      { done. }
      rewrite (writerow_total v names line o Hlen).
      specialize (IH cap').
      by destruct (write_rows _ _ cap' _) as [[out c] e].
    + apply IH.
Qed.

(** ** Concrete runs *)

(** C3. Inputs on which an input record gets no output record. In the
    extended variant, a line shorter than the header: the cells it lacks
    are [None], and the run ends with [AttributeError] when the loop
    reaches the first of them. In the base variant, a header that lacks a
    preference column: the run ends with [KeyError] when the loop reaches
    that column. In both runs only the header line is written. *)
Theorem coverage_lost :
  (length (input_records short_line_file_email) = 1%nat ∧
   records (Iiitk.allocate_slots short_line_file_email) = [] ∧
   raised (Iiitk.allocate_slots short_line_file_email) = Some AttributeError ∧
   length (lines_out (Iiitk.allocate_slots short_line_file_email)) = 1%nat) ∧
  (length (input_records two_preference_file) = 1%nat ∧
   records (Gym.allocate_slots two_preference_file) = [] ∧
   raised (Gym.allocate_slots two_preference_file) = Some KeyError ∧
   length (lines_out (Gym.allocate_slots two_preference_file)) = 1%nat).
Proof. repeat split; vm_compute; reflexivity. Qed.

(** A line longer than the header: the surplus cells go under [restkey],
    which is no column of the writer, and [writerow] raises [ValueError];
    the place taken for the applicant is not given back. *)
Lemma surplus_cell_raises :
  raised (Gym.allocate_slots surplus_cell_file) = Some ValueError ∧
  records (Gym.allocate_slots surplus_cell_file) = [] ∧
  capacity_end (Gym.allocate_slots surplus_cell_file)
    !! "SLOT 4 (5:30PM TO 7:00PM)" = Some 4.
Proof. repeat split; vm_compute; reflexivity. Qed.

(** C8. A preference field that is missing. When the record has no such
    key (the header lacks the column) the base variant raises [KeyError]
    where the extended one reads the empty label. When the key holds
    [None] (the line is shorter than the header) the base variant reads
    [None], which is no slot, where the extended one raises
    [AttributeError]. Each variant so ends one of the four runs below with
    an exception and no record written, and the other variant ends the
    corresponding run with "No slot allocated". *)
Theorem missing_preference_field :
  (∀ row pref, dict_get row (Some pref) = None →
     Gym.read row pref = Raise KeyError ∧ Iiitk.read row pref = Ok (VStr "")) ∧
  (∀ row pref, dict_get row (Some pref) = Some VNone →
     Gym.read row pref = Ok VNone ∧ Iiitk.read row pref = Raise AttributeError) ∧
  (raised (Gym.allocate_slots two_preference_file) = Some KeyError ∧
   records (Gym.allocate_slots two_preference_file) = []) ∧
  (raised (Iiitk.allocate_slots two_preference_file_email) = None ∧
   outcome <$> records (Iiitk.allocate_slots two_preference_file_email) =
     [Some (VStr "No slot allocated")]) ∧
  (raised (Iiitk.allocate_slots short_line_file_email) = Some AttributeError ∧
   records (Iiitk.allocate_slots short_line_file_email) = []) ∧
  (raised (Gym.allocate_slots short_line_file) = None ∧
   outcome <$> records (Gym.allocate_slots short_line_file) =
     [Some (VStr "No slot allocated")]).
Proof.
  split; [|split].
  - intros row pref Hget. unfold Gym.read, Iiitk.read, Iiitk.get_strip.
    by rewrite Hget.
  - intros row pref Hget. unfold Gym.read, Iiitk.read, Iiitk.get_strip.
    by rewrite Hget.
  - repeat split; vm_compute; reflexivity.
Qed.

(** C10. In the extended variant a line that stops before the "Email"
    column gives the record the field "Email" with the value [None]; the
    row body raises [AttributeError] on it, whatever the table, and the run
    ends there with no record written. A header without the column is
    handled: the record gets "Invalid email domain". *)
Theorem email_cell_missing :
  (∀ cap row, dict_get row (Some "Email") = Some VNone →
     Iiitk.allocate_row cap row = Raise AttributeError) ∧
  (length (input_records no_email_cell_file) = 1%nat ∧
   records (Iiitk.allocate_slots no_email_cell_file) = [] ∧
   raised (Iiitk.allocate_slots no_email_cell_file) = Some AttributeError) ∧
  (raised (Iiitk.allocate_slots no_email_column_file) = None ∧
   outcome <$> records (Iiitk.allocate_slots no_email_column_file) =
     [Some (VStr "Invalid email domain")]).
Proof.
  split.
  - intros cap row Hget. unfold Iiitk.allocate_row, Iiitk.get_strip.
    by rewrite Hget.
  - repeat split; vm_compute; reflexivity.
Qed.

(** C9. The base variant on a header that already has the column
    ["Allocated Slot"]: the output header has it twice. The extended
    variant keeps the header as it is. *)
Theorem header_extension :
  (∀ names lines,
     fieldnames_out (Gym.allocate_slots (names :: lines)) =
     names ++ ["Allocated Slot"]) ∧
  header_out (Gym.allocate_slots annotated_file) =
    Some (VStr <$> ["Email"; "SLOT PREFERENCE : 1"; "Allocated Slot";
                    "Allocated Slot"]) ∧
  header_out (Iiitk.allocate_slots annotated_file) =
    Some (VStr <$> ["Email"; "SLOT PREFERENCE : 1"; "Allocated Slot"]).
Proof.
  split; [|split; by vm_compute].
  intros names lines. unfold Gym.allocate_slots. by rewrite run_from_eq;
    destruct (write_rows _ _ _ _) as [[??]?].
Qed.

Lemma filter_eq_absent (l : list string) k :
  k ∉ l → filter (λ x, x = k) l = [].
Proof.
  induction l as [|x l IH]; [done|].
  rewrite not_elem_of_cons. intros [Hne Hl]. rewrite filter_cons.
  rewrite decide_False by congruence. by apply IH.
Qed.

(** In the extended variant the output header has the column
    ["Allocated Slot"] as often as the input header, and once when the
    input header has none. *)
Lemma iiitk_header_idempotent names lines :
  let count := λ l : list string,
    length (filter (λ k, k = "Allocated Slot") l) in
  count (fieldnames_out (Iiitk.allocate_slots (names :: lines))) =
  if bool_decide ("Allocated Slot" ∈ names) then count names else 1%nat.
Proof.
  intros count. unfold Iiitk.allocate_slots. rewrite run_from_eq.
  destruct (write_rows _ _ _ _) as [[??]?]. simpl. unfold Iiitk.fieldnames.
  case_bool_decide as Hin; [done|].
  unfold count. rewrite filter_app, length_app.
  by rewrite (filter_eq_absent names "Allocated Slot" Hin).
Qed.

(** * Further properties of the two allocators *)

(** ** Runs as a whole *)

(** X1. In either variant a run never writes more records than it has
    input records; it writes exactly one for each when it raises nothing,
    and strictly fewer when it raises on an input that has a header. *)
Theorem records_and_exceptions v infile :
  (length (records (allocate_slots_of v infile)) ≤
   length (input_records infile))%nat ∧
  (raised (allocate_slots_of v infile) = None →
   length (records (allocate_slots_of v infile)) =
   length (input_records infile)) ∧
  (∀ e, raised (allocate_slots_of v infile) = Some e → infile ≠ [] →
   (length (records (allocate_slots_of v infile)) <
    length (input_records infile))%nat).
Proof.
  destruct infile as [|names lines].
  { rewrite allocate_slots_of_nil. simpl. repeat split; [lia|done..]. }
  destruct (records_of_run v (names :: lines)) as (rs & c & e & Hrun & -> & He).
  destruct He as [_ ->]; [done|].
  pose proof (write_rows_length _ _ _ _ _ _ _ Hrun) as Hlen.
  destruct e as [ex|]; (split; [lia|]); (split; [done|]); [|done].
  intros e' _ _. lia.
Qed.

(** ** The records [DictReader] yields *)

Lemma fst_zip_take {A B} (l : list A) (k : list B) :
  (zip l k).*1 = take (length k) l.
Proof.
  revert k. induction l as [|x l IH]; intros [|y k]; simpl; [done..|].
  by rewrite IH.
Qed.

Lemma foldl_dict_set_none_keys (ks : list string) : ∀ (d : dict) k,
  k ∈ dict_keys (foldl (λ d k, dict_set d (Some k) VNone) d ks) ↔
  k ∈ dict_keys d ∨ k ∈ (Some <$> ks).
Proof.
  induction ks as [|k0 ks IH]; intros d k; simpl.
  - rewrite elem_of_nil. tauto.
  - rewrite IH, dict_keys_set, elem_of_cons. tauto.
Qed.

(** The keys of a record: the column names, and [restkey] when the line
    has more cells than the header. *)
Lemma reader_row_keys names line k :
  k ∈ dict_keys (reader_row names line) ↔
  (∃ n, k = Some n ∧ n ∈ names) ∨
  (k = None ∧ (length names < length line)%nat).
Proof.
  assert (∀ l : list string, k ∈ (Some <$> l) ↔ ∃ n, k = Some n ∧ n ∈ l) as Hmem.
  { intros l. apply list_elem_of_fmap. }
  assert (k ∈ dict_keys (dict_zip names line) ↔
          k ∈ (Some <$> take (length line) names)) as Hzip.
  { unfold dict_zip. rewrite foldl_dict_set_keys, fst_zip_take.
    split; [intros [H|H]; [by apply elem_of_nil in H|done] | by right]. }
  unfold reader_row. destruct (Nat.ltb_spec (length names) (length line)) as [Hlt|Hge].
  - rewrite dict_keys_set, Hzip, take_ge, Hmem by lia.
    split; [intros [->|H]; [right|left]; done | intros [H|[-> _]]; [by right|by left]].
  - destruct (Nat.ltb_spec (length line) (length names)) as [Hlt|Hge'].
    + rewrite foldl_dict_set_none_keys, Hzip, <- elem_of_app, <- fmap_app, take_drop.
      rewrite Hmem. split; [intros H; by left | intros [H|[_ ?]]; [done|lia]].
    + rewrite Hzip, take_ge, Hmem by lia.
      split; [intros H; by left | intros [H|[_ ?]]; [done|lia]].
Qed.

Lemma foldl_dict_set_none_cells (ks : list string) : ∀ d : dict,
  (∀ k v, dict_get d (Some k) = Some v → (∃ s, v = VStr s) ∨ v = VNone) →
  ∀ k v,
    dict_get (foldl (λ d k, dict_set d (Some k) VNone) d ks) (Some k) = Some v →
    (∃ s, v = VStr s) ∨ v = VNone.
Proof.
  induction ks as [|k0 ks IH]; intros d Hd k v; simpl; [apply Hd|].
  apply IH. intros k1 v1. destruct (decide (k0 = k1)) as [->|Hne].
  - rewrite dict_get_set_eq. intros [= <-]. by right.
  - rewrite dict_get_set_ne by congruence. apply Hd.
Qed.

(** Under a column name a record holds a cell or [None], never a list. *)
Lemma reader_row_cells names line k v :
  dict_get (reader_row names line) (Some k) = Some v →
  (∃ s, v = VStr s) ∨ v = VNone.
Proof.
  assert (∀ k v, dict_get (dict_zip names line) (Some k) = Some v →
                 (∃ s, v = VStr s) ∨ v = VNone) as Hzip.
  { intros k' v' Hget. left. revert Hget. by apply foldl_dict_set_str. }
  unfold reader_row. destruct (length names <? length line)%nat.
  - rewrite dict_get_set_ne by done. apply Hzip.
  - destruct (length line <? length names)%nat; [|apply Hzip].
    by apply foldl_dict_set_none_cells.
Qed.

(** A column of the header is a key of every record. *)
Lemma reader_row_column names line k :
  k ∈ names →
  ∃ v, dict_get (reader_row names line) (Some k) = Some v ∧
       ((∃ s, v = VStr s) ∨ v = VNone).
Proof.
  intros Hk. destruct (dict_get (reader_row names line) (Some k)) as [v|] eqn:Hget.
  - exists v. split; [done|]. by eapply reader_row_cells.
  - apply dict_get_None in Hget. exfalso. apply Hget.
    apply reader_row_keys. left. by exists k.
Qed.

(** [writerow] on an annotated record: it raises exactly when the line had
    more cells than the header. *)
Lemma writerow_reader_row v names line o :
  writerow (fieldnames_of v names)
    (dict_set (reader_row names line) (Some "Allocated Slot") (VStr o)) =
  if (length names <? length line)%nat then Raise ValueError
  else Ok (row_cells (fieldnames_of v names)
             (dict_set (reader_row names line) (Some "Allocated Slot") (VStr o))).
Proof.
  unfold writerow, dict_to_list.
  set (row := dict_set (reader_row names line) (Some "Allocated Slot") (VStr o)).
  destruct (Nat.ltb_spec (length names) (length line)) as [Hlt|Hge].
  - destruct (forallb _ _) eqn:Hall; [|done]. exfalso.
    rewrite forallb_forall in Hall.
    assert (None ∈ dict_keys row) as Hin.
    { apply dict_keys_set. right. apply reader_row_keys. by right. }
    apply list_elem_of_In, Hall, bool_decide_eq_true in Hin.
    apply list_elem_of_fmap in Hin as (? & [=] & _).
  - assert (forallb (λ k, bool_decide (k ∈ (Some <$> fieldnames_of v names)))
              (dict_keys row) = true) as ->; [|done].
    apply forallb_forall. intros k Hk%list_elem_of_In.
    apply bool_decide_eq_true. apply dict_keys_set in Hk as [->|Hk].
    + apply list_elem_of_fmap_2, fieldnames_of_spec. by right.
    + apply reader_row_keys in Hk as [(n & -> & Hn)|[_ ?]]; [|lia].
      apply list_elem_of_fmap_2, fieldnames_of_spec. by left.
Qed.

(** ** Inputs a variant reads to the end *)

Lemma first_fit_cells read cap row prefs :
  (∀ pref, pref ∈ prefs →
     ∃ v, read row pref = Ok v ∧ ((∃ s, v = VStr s) ∨ v = VNone)) →
  ∃ a cap', first_fit read cap row prefs = Ok (a, cap').
Proof.
  induction prefs as [|pref prefs IH]; intros Hread; simpl; [by eexists _, _|].
  destruct (Hread pref) as (v & -> & Hv); [by left|].
  cbv beta iota delta [mbind result_bind].
  assert (∃ a cap', first_fit read cap row prefs = Ok (a, cap')) as Hrest.
  { apply IH. intros p Hp. apply Hread. by right. }
  destruct Hv as [[s ->]| ->]; unfold available; [|exact Hrest].
  destruct (cap !! s) as [c|]; [|exact Hrest].
  case_bool_decide; [by eexists _, _|exact Hrest].
Qed.

Lemma gym_allocate_row_reader names line cap :
  Forall (λ pref, pref ∈ names) Gym.preference_columns →
  ∃ o cap',
    Gym.allocate_row cap (reader_row names line) =
    Ok (dict_set (reader_row names line) (Some "Allocated Slot") (VStr o), cap').
Proof.
  intros Hprefs.
  destruct (first_fit_cells Gym.read cap (reader_row names line)
              Gym.preference_columns) as (a & cap' & Hff).
  { intros pref Hpref. unfold Gym.read.
    destruct (reader_row_column names line pref) as (v & -> & Hv); [|by exists v].
    by eapply Forall_forall in Hprefs. }
  unfold Gym.allocate_row. rewrite Hff. by eexists _, _.
Qed.

Lemma tolerated_line v names line cap :
  tolerated v (names :: [line]) → line ≠ [] →
  (length line ≤ length names)%nat ∧
  ∃ o cap',
    allocate_row_of v cap (reader_row names line) =
    Ok (dict_set (reader_row names line) (Some "Allocated Slot") (VStr o), cap').
Proof.
  destruct v; simpl.
  - intros [Hprefs Hlen] _. apply Forall_cons in Hlen as [Hlen _].
    split; [lia|]. by apply gym_allocate_row_reader.
  - intros Hline Hne. apply Forall_cons in Hline as [[?|Hlen] _]; [done|].
    split; [lia|].
    apply (allocate_row_total Extended); [|done].
    split; [|done]. apply Forall_singleton. by right.
Qed.

Lemma tolerated_cons v names line lines :
  tolerated v (names :: line :: lines) →
  tolerated v (names :: [line]) ∧ tolerated v (names :: lines).
Proof.
  destruct v; simpl.
  - intros [Hprefs [Hline Hlines]%Forall_cons]. repeat split; try done.
    by apply Forall_singleton.
  - intros [Hline Hlines]%Forall_cons. split; [|done]. by apply Forall_singleton.
Qed.

(** On the lines of an input the variant tolerates no statement of the
    program raises, and there is one record for each line that is not
    blank. *)
Lemma tolerated_lines_complete v infile :
  tolerated v infile →
  raised (allocate_slots_of v infile) = None ∧
  length (records (allocate_slots_of v infile)) =
  length (filter (λ line, line ≠ []) (data_lines infile)).
Proof.
  intros Htol. destruct infile as [|names lines]; [done|].
  assert (raised (allocate_slots_of v (names :: lines)) = None) as Hnone.
  2:{ split; [done|].
      pose proof (coverage_of_completed_run v (names :: lines)) as Hcov.
      rewrite Hnone in Hcov. rewrite Hcov. simpl. unfold DictReader.
      by rewrite length_fmap. }
  rewrite allocate_slots_of_cons.
  generalize (capacity_of v). induction lines as [|line lines IH]; intros cap.
  - done.
  - apply tolerated_cons in Htol as [Hline Hlines]. specialize (IH Hlines).
    unfold DictReader in *. rewrite filter_cons. case_decide as Hblank.
    + destruct (tolerated_line v names line cap Hline Hblank)
        as (Hlen & o & cap' & Hstep).
      rewrite fmap_cons. simpl. rewrite Hstep, writerow_reader_row.
      destruct (Nat.ltb_spec (length names) (length line)) as [?|_]; [lia|].
      specialize (IH cap').
      by destruct (write_rows _ _ cap' _) as [[out c] e].
    + apply IH.
Qed.

(** ** The exceptions a run can end with *)

Lemma first_fit_raise read cap row prefs e :
  first_fit read cap row prefs = Raise e →
  ∃ pref, pref ∈ prefs ∧
    (read row pref = Raise e ∨
     ∃ l, read row pref = Ok (VList l) ∧ e = TypeError).
Proof.
  induction prefs as [|pref prefs IH]; simpl; [done|].
  destruct (read row pref) as [v|e'] eqn:Hread;
    cbv beta iota delta [mbind result_bind].
  2:{ intros [= ->]. exists pref. split; [by left|by left]. }
  destruct v as [s| |l]; unfold available.
  - intros Hrest.
    assert (first_fit read cap row prefs = Raise e) as Hff.
    { destruct (cap !! s) as [c|]; [|done]. by case_bool_decide. }
    destruct (IH Hff) as (p & Hp & Hcase). exists p. split; [by right|done].
  - intros Hff. destruct (IH Hff) as (p & Hp & Hcase).
    exists p. split; [by right|done].
  - intros [= <-]. exists pref. split; [by left|]. right. by exists l.
Qed.

Lemma allocate_row_of_shape v cap row row' cap' :
  allocate_row_of v cap row = Ok (row', cap') →
  ∃ o, row' = dict_set row (Some "Allocated Slot") (VStr o).
Proof.
  destruct v; cbv [allocate_row_of].
  - unfold Gym.allocate_row.
    destruct (first_fit _ _ _ _) as [[a c]|e]; [|done].
    intros [= <- _]. by eexists.
  - unfold Iiitk.allocate_row.
    destruct (Iiitk.get_strip row "Email") as [e|ex]; [|done].
    cbv beta iota delta [mbind result_bind].
    destruct (negb _); [intros [= <- _]; by eexists|].
    destruct (first_fit _ _ _ _) as [[a c]|ex]; [|done].
    intros [= <- _]. by eexists.
Qed.

(** [None] under a column name: the line is shorter than the header. *)
Lemma reader_row_none names line k :
  dict_get (reader_row names line) (Some k) = Some VNone →
  (length line < length names)%nat.
Proof.
  assert (dict_get (dict_zip names line) (Some k) ≠ Some VNone) as Hzip.
  { intros Hget. apply foldl_dict_set_str in Hget as [s [=]]. done. }
  unfold reader_row. destruct (Nat.ltb_spec (length names) (length line)).
  - rewrite dict_get_set_ne by done. done.
  - destruct (Nat.ltb_spec (length line) (length names)); done.
Qed.

Lemma get_strip_reader_raise names line k e :
  Iiitk.get_strip (reader_row names line) k = Raise e →
  e = AttributeError ∧ (length line < length names)%nat.
Proof.
  unfold Iiitk.get_strip.
  destruct (dict_get (reader_row names line) (Some k)) as [v|] eqn:Hget; [|done].
  destruct (reader_row_cells _ _ _ _ Hget) as [[s ->]| ->]; [done|].
  intros [= <-]. split; [done|]. by eapply reader_row_none.
Qed.

(** The exceptions of the row body on a record of [DictReader]:
    [KeyError] in the base variant, for a preference column the header
    lacks, and [AttributeError] in the extended variant, on a line
    shorter than the header. *)
Lemma allocate_row_reader_raise v names line cap e :
  allocate_row_of v cap (reader_row names line) = Raise e →
  match v with
  | Base => e = KeyError ∧ Exists (λ pref, pref ∉ names) Gym.preference_columns
  | Extended => e = AttributeError ∧ (length line < length names)%nat
  end.
Proof.
  destruct v; cbv [allocate_row_of].
  - unfold Gym.allocate_row.
    destruct (first_fit _ _ _ _) as [[a c]|e'] eqn:Hff; [done|].
    intros [= ->]. apply first_fit_raise in Hff as (pref & Hpref & Hcase).
    unfold Gym.read in Hcase.
    destruct (dict_get (reader_row names line) (Some pref)) as [w|] eqn:Hget.
    + destruct Hcase as [[=]|(l & [= ->] & _)].
      by destruct (reader_row_cells _ _ _ _ Hget) as [[s [=]]|[=]].
    + destruct Hcase as [[= <-]|(l & [=] & _)]. split; [done|].
      apply Exists_exists. exists pref. split; [done|].
      intros Hin. apply dict_get_None in Hget. apply Hget.
      apply reader_row_keys. left. by exists pref.
  - unfold Iiitk.allocate_row.
    destruct (Iiitk.get_strip (reader_row names line) "Email") as [em|ex] eqn:Hem.
    2:{ intros [= <-]. by eapply get_strip_reader_raise. }
    cbv beta iota delta [mbind result_bind].
    destruct (negb _); [done|].
    destruct (first_fit _ _ _ _) as [[a c]|e'] eqn:Hff; [done|].
    intros [= ->]. apply first_fit_raise in Hff as (pref & Hpref & Hcase).
    unfold Iiitk.read in Hcase.
    destruct (Iiitk.get_strip (reader_row names line) pref) as [s|ex] eqn:Hs.
    + by destruct Hcase as [[=]|(l & [=] & _)].
    + destruct Hcase as [[= <-]|(l & [=] & _)].
      by eapply get_strip_reader_raise.
Qed.

(** Where the loop over the rows raises. *)
Lemma write_rows_raised step fieldnames rows : ∀ cap out cap_end e,
  write_rows step fieldnames cap rows = (out, cap_end, Some e) →
  ∃ row cap0,
    row ∈ rows ∧
    (step cap0 row = Raise e ∨
     ∃ r' c', step cap0 row = Ok (r', c') ∧ writerow fieldnames r' = Raise e).
Proof.
  induction rows as [|row rows IH]; intros cap out cap_end e; simpl; [done|].
  destruct (step cap row) as [[r' c1]|e1] eqn:Hstep.
  2:{ intros [= _ _ <-]. exists row, cap. split; [by left|by left]. }
  destruct (writerow fieldnames r') as [cells|e1] eqn:Hw.
  2:{ intros [= _ _ <-]. exists row, cap. split; [by left|].
      right. by exists r', c1. }
  destruct (write_rows step fieldnames c1 rows) as [[out1 c2] e2] eqn:Hrec.
  intros [= _ _ ->]. destruct (IH _ _ _ _ Hrec) as (r0 & cap0 & Hin & Hcase).
  exists r0, cap0. split; [by right|done].
Qed.

(** The exceptions the statements of the program raise, and what in the
    lines causes each. *)
Lemma program_exceptions v infile e :
  raised (allocate_slots_of v infile) = Some e →
  match e with
  | TypeError => infile = []
  | ValueError =>
      Exists (λ line : list string, (length (hd [] infile) < length line)%nat)
        (data_lines infile)
  | KeyError =>
      v = Base ∧
      Exists (λ pref, pref ∉ hd [] infile) Gym.preference_columns
  | AttributeError =>
      v = Extended ∧
      Exists (λ line : list string,
                line ≠ [] ∧ (length line < length (hd [] infile))%nat)
        (data_lines infile)
  | CsvError | UnicodeDecodeError | OSError => False
  end.
Proof.
  destruct infile as [|names lines].
  { rewrite allocate_slots_of_nil. simpl. by intros [= <-]. }
  rewrite allocate_slots_of_cons.
  destruct (write_rows _ _ _ _) as [[out c] e'] eqn:Hrun. simpl.
  intros ->. apply write_rows_raised in Hrun as (row & cap0 & Hin & Hcase).
  unfold DictReader in Hin.
  apply list_elem_of_fmap in Hin as (line & -> & Hline).
  apply list_elem_of_filter in Hline as [Hblank Hline].
  destruct Hcase as [Hstep|(r' & c' & Hstep & Hw)].
  - apply allocate_row_reader_raise in Hstep.
    destruct v; destruct Hstep as [-> Hwhy]; split; try done.
    apply Exists_exists. by exists line.
  - apply allocate_row_of_shape in Hstep as [o ->].
    rewrite writerow_reader_row in Hw.
    destruct (Nat.ltb_spec (length names) (length line)) as [Hlt|_]; [|done].
    injection Hw as <-. apply Exists_exists. by exists line.
Qed.

(** ** Places taken and records written *)

Lemma transition_exact fallbacks cap row row' cap' s c :
  table_ok fallbacks cap →
  transition fallbacks cap row row' cap' →
  cap !! s = Some c →
  ∃ c', cap' !! s = Some c' ∧
        c' + (if decide (outcome row' = Some (VStr s)) then 1 else 0) = c.
Proof.
  intros [_ Hf] [o Ho|s0 c0 Hs0 Hc0] Hs; rewrite outcome_set.
  - exists c. split; [done|]. rewrite decide_False; [lia|].
    intros [= ->]. specialize (Hf _ Ho). congruence.
  - destruct (decide (s0 = s)) as [->|Hne].
    + rewrite lookup_insert_eq. exists (c0 - 1). split; [done|].
      rewrite decide_True by done. assert (c0 = c) by congruence. lia.
    + rewrite lookup_insert_ne by done. exists c. split; [done|].
      rewrite decide_False by congruence. lia.
Qed.

Section Accounting.

Variable step : gmap string Z → dict → result (dict * gmap string Z).
Variable fieldnames : list string.
Variable fallbacks : list string.

Hypothesis step_transition : ∀ cap row row' cap',
  table_ok fallbacks cap → step cap row = Ok (row', cap') →
  transition fallbacks cap row row' cap'.

(** The places a slot has lost are the records that carry it, and one more
    at most: the place of a record [writerow] refused. *)
Lemma write_rows_exact rows : ∀ cap out cap_end e s c,
  table_ok fallbacks cap →
  write_rows step fieldnames cap rows = (out, cap_end, e) →
  cap !! s = Some c →
  ∃ c', cap_end !! s = Some c' ∧
        c' + Z.of_nat (count_outcome s out) ≤ c ≤
          c' + Z.of_nat (count_outcome s out) + 1 ∧
        (e ≠ Some ValueError → c' + Z.of_nat (count_outcome s out) = c).
Proof.
  induction rows as [|row rows IH]; intros cap out cap_end e s c Hok; simpl.
  - intros [= <- <- <-] Hs. exists c. unfold count_outcome. simpl.
    split; [done|]. split; lia.
  - destruct (step cap row) as [[row' cap1]|e1] eqn:Hstep.
    2:{ intros [= <- <- <-] Hs. exists c. unfold count_outcome. simpl.
        split; [done|]. split; lia. }
    pose proof (step_transition _ _ _ _ Hok Hstep) as Ht.
    pose proof (transition_table_ok _ _ _ _ _ Ht Hok) as Hok1.
    destruct (writerow fieldnames row') as [cells|e1] eqn:Hw.
    2:{ intros [= <- <- <-] Hs.
        destruct (transition_exact _ _ _ _ _ s c Hok Ht Hs) as (c' & Hc' & Heq).
        exists c'. unfold count_outcome. simpl. split; [done|].
        assert (e1 = ValueError) as ->.
        { revert Hw. unfold writerow, dict_to_list.
          destruct (forallb _ _); [done|]. by intros [= <-]. }
        split; [case_decide; lia|]. done. }
    destruct (write_rows step fieldnames cap1 rows) as [[out1 c1] e1] eqn:Hrec.
    intros [= <- <- <-] Hs.
    destruct (transition_exact _ _ _ _ _ s c Hok Ht Hs) as (c' & Hc' & Heq).
    destruct (IH _ _ _ _ s c' Hok1 Hrec Hc') as (c'' & Hc'' & Hbound & Hexact).
    exists c''. rewrite count_outcome_cons. split; [done|].
    split; [case_decide; lia|]. intros He. specialize (Hexact He).
    case_decide; lia.
Qed.

End Accounting.

(** X4. Accounting of places, for either variant, any input and any slot
    of the table: the capacity the run ends with, plus the number of output
    records that carry the slot, is the configured capacity, unless the run
    ended with [ValueError], the writer refusing a record whose place had
    been taken; even then the two differ by at most one. *)
Theorem places_accounting v infile s c0 :
  capacity_of v !! s = Some c0 →
  ∃ c,
    capacity_end (allocate_slots_of v infile) !! s = Some c ∧
    c + Z.of_nat (count_outcome s (records (allocate_slots_of v infile))) ≤ c0 ≤
      c + Z.of_nat (count_outcome s (records (allocate_slots_of v infile))) + 1 ∧
    (raised (allocate_slots_of v infile) ≠ Some ValueError →
     c + Z.of_nat (count_outcome s (records (allocate_slots_of v infile))) = c0).
Proof.
  intros Hs. destruct infile as [|names lines].
  { rewrite allocate_slots_of_nil. simpl. exists c0. unfold count_outcome. simpl.
    split; [done|]. split; lia. }
  destruct (records_of_run v (names :: lines)) as (out & c & e & Hrun & -> & He).
  destruct He as [-> ->]; [done|].
  by apply (write_rows_exact _ _ _ (step_transition_of v) _ _ _ _ _ _ _
              (capacity_of_ok v) Hrun).
Qed.

Lemma places_accounting_witness :
  ∃ c,
    capacity_end (Gym.allocate_slots surplus_cell_file)
      !! "SLOT 4 (5:30PM TO 7:00PM)" = Some c ∧
    c + Z.of_nat (count_outcome "SLOT 4 (5:30PM TO 7:00PM)"
                    (records (Gym.allocate_slots surplus_cell_file))) ≤ 5 ≤
      c + Z.of_nat (count_outcome "SLOT 4 (5:30PM TO 7:00PM)"
                    (records (Gym.allocate_slots surplus_cell_file))) + 1.
Proof.
  destruct (places_accounting Base surplus_cell_file
              "SLOT 4 (5:30PM TO 7:00PM)" 5) as (c & Hc & Hbound & _).
  - vm_compute. reflexivity.
  - exists c. split; [exact Hc | exact Hbound].
Defined.

(** ** The lines written *)

Lemma row_cells_annotated fieldnames (inp : dict) o :
  row_cells fieldnames (dict_set inp (Some "Allocated Slot") (VStr o)) =
  (λ k, if decide (k = "Allocated Slot") then VStr o
        else default (VStr "") (dict_get inp (Some k))) <$> fieldnames.
Proof.
  unfold row_cells. apply list_fmap_ext. intros j k _. case_decide as Hk.
  - subst k. by rewrite dict_get_set_eq.
  - rewrite dict_get_set_ne; [done|]. congruence.
Qed.

(** X5. The lines of the output, in either variant. The first is the
    output header. The line of output record [i] has one cell for each
    column of that header: the outcome in every column named
    "Allocated Slot", and in any other column the value input record [i]
    holds under that name ([None] for a cell the input line lacks, the
    empty string for a column the input header lacks). *)
Theorem written_lines v infile i out :
  records (allocate_slots_of v infile) !! i = Some out →
  ∃ inp o,
    input_records infile !! i = Some inp ∧
    outcome out = Some (VStr o) ∧
    lines_out (allocate_slots_of v infile) !! 0%nat =
      Some (VStr <$> fieldnames_out (allocate_slots_of v infile)) ∧
    lines_out (allocate_slots_of v infile) !! S i =
      Some ((λ k, if decide (k = "Allocated Slot") then VStr o
                  else default (VStr "") (dict_get inp (Some k)))
            <$> fieldnames_out (allocate_slots_of v infile)).
Proof.
  destruct infile as [|names lines].
  { rewrite allocate_slots_of_nil. simpl. by rewrite lookup_nil. }
  intros Hout.
  destruct (records_of_run v (names :: lines)) as (rs & c & e & Hrun & Hrs & _).
  rewrite Hrs in Hout.
  destruct (write_rows_records _ _ _ (step_transition_of v) _ _ _ _ _
              (capacity_of_ok v) Hrun _ _ Hout) as (inp & o & Hinp & -> & _).
  exists inp, o. split; [done|]. split; [apply outcome_set|].
  revert Hrs. rewrite allocate_slots_of_cons.
  destruct (write_rows _ _ _ _) as [[out' c'] e']. simpl. intros ->.
  unfold lines_out. simpl. split; [done|].
  by rewrite list_lookup_fmap, Hout, <- row_cells_annotated.
Qed.

Lemma written_lines_witness :
  ∃ inp o,
    input_records short_line_file !! 0%nat = Some inp ∧
    lines_out (Gym.allocate_slots short_line_file) !! 1%nat =
      Some ((λ k, if decide (k = "Allocated Slot") then VStr o
                  else default (VStr "") (dict_get inp (Some k)))
            <$> fieldnames_out (Gym.allocate_slots short_line_file)).
Proof.
  destruct (written_lines Base short_line_file 0
    [ (Some "Name", VStr "asha");
      (Some "SLOT PREFERENCE : 1", VStr "SLOT 33");
      (Some "SLOT PREFERENCE : 2", VNone);
      (Some "SLOT PREFERENCE : 3", VNone);
      (Some "Allocated Slot", VStr "No slot allocated") ])
    as (inp & o & Hinp & _ & _ & Hline).
  - vm_compute. reflexivity.
  - exists inp, o. split; [exact Hinp | exact Hline].
Defined.

Lemma foldl_dict_set_fresh (kvs : list (string * string)) : ∀ d : dict,
  NoDup kvs.*1 →
  (∀ k, k ∈ kvs.*1 → Some k ∉ dict_keys d) →
  foldl (λ d kv, dict_set d (Some kv.1) (VStr kv.2)) d kvs =
  d ++ ((λ kv, (Some kv.1, VStr kv.2)) <$> kvs).
Proof.
  induction kvs as [|[k0 v0] kvs IH]; intros d Hnd Hfresh; simpl.
  - by rewrite app_nil_r.
  - apply NoDup_cons in Hnd as [Hk0 Hnd].
    rewrite dict_set_absent by (apply Hfresh; by left).
    rewrite IH; [by rewrite <- app_assoc|done|].
    intros k Hk. unfold dict_keys. rewrite fmap_app, elem_of_app. simpl.
    rewrite list_elem_of_singleton. intros [Hin|[= ->]]; [|done].
    by apply (Hfresh k); [right|].
Qed.

Lemma dict_zip_nodup (ks vs : list string) :
  NoDup ks → length ks = length vs →
  dict_zip ks vs = (λ kv, (Some kv.1, VStr kv.2)) <$> zip ks vs.
Proof.
  intros Hnd Hlen. unfold dict_zip.
  rewrite foldl_dict_set_fresh; [done| |].
  - by rewrite fst_zip by lia.
  - intros k _. apply not_elem_of_nil.
Qed.

Lemma dict_get_zip_nodup (ks : list string) : ∀ (vs : list string) j k,
  NoDup ks → ks !! j = Some k →
  dict_get ((λ kv, (Some kv.1, VStr kv.2)) <$> zip ks vs) (Some k) =
  VStr <$> vs !! j.
Proof.
  induction ks as [|k0 ks IH]; intros vs j k Hnd Hj; [by rewrite lookup_nil in Hj|].
  apply NoDup_cons in Hnd as [Hk0 Hnd].
  destruct vs as [|v0 vs].
  { simpl. by destruct j. }
  simpl. destruct j as [|j]; simpl in *.
  - injection Hj as ->. by rewrite decide_True.
  - rewrite decide_False; [by apply IH|].
    intros [= ->]. apply Hk0. by eapply list_elem_of_lookup_2.
Qed.

(** The cells written for a record are the cells read, when the header
    has no column twice and the line has as many cells as the header. *)
Lemma row_cells_reader_row names line :
  NoDup names → length line = length names →
  row_cells names (reader_row names line) = VStr <$> line.
Proof.
  intros Hnd Hlen. rewrite (reader_row_full _ _ Hlen).
  rewrite dict_zip_nodup by done. unfold row_cells.
  apply list_eq. intros j. rewrite !list_lookup_fmap.
  destruct (names !! j) as [k|] eqn:Hj; simpl.
  - rewrite (dict_get_zip_nodup names line j k Hnd Hj).
    destruct (lookup_lt_is_Some_2 line j) as [x Hx].
    { apply lookup_lt_Some in Hj. lia. }
    by rewrite Hx.
  - apply lookup_ge_None in Hj. rewrite lookup_ge_None_2; [done|lia].
Qed.

Lemma fieldnames_of_fresh v names :
  "Allocated Slot" ∉ names → fieldnames_of v names = names ++ ["Allocated Slot"].
Proof.
  intros Hfresh. destruct v; [done|]. simpl. unfold Iiitk.fieldnames.
  by rewrite bool_decide_eq_false_2.
Qed.

(** X6. Lines in, lines out. In either variant, when the input header has
    no column twice and no column "Allocated Slot", the output header is
    the input header with that column added, and the output line of a
    record whose input line has as many cells as the header is that input
    line, cell for cell, followed by the outcome. *)
Theorem line_in_line_out v names lines i out :
  NoDup names →
  "Allocated Slot" ∉ names →
  records (allocate_slots_of v (names :: lines)) !! i = Some out →
  ∃ line o,
    filter (λ line, line ≠ []) lines !! i = Some line ∧
    outcome out = Some (VStr o) ∧
    lines_out (allocate_slots_of v (names :: lines)) !! 0%nat =
      Some (VStr <$> names ++ ["Allocated Slot"]) ∧
    (length line = length names →
     lines_out (allocate_slots_of v (names :: lines)) !! S i =
       Some ((VStr <$> line) ++ [VStr o])).
Proof.
  intros Hnd Hfresh Hout.
  destruct (records_of_run v (names :: lines)) as (rs & c & e & Hrun & Hrs & _).
  rewrite Hrs in Hout.
  destruct (write_rows_records _ _ _ (step_transition_of v) _ _ _ _ _
              (capacity_of_ok v) Hrun _ _ Hout) as (inp & o & Hinp & -> & _).
  simpl in Hinp. unfold DictReader in Hinp. rewrite list_lookup_fmap in Hinp.
  destruct (filter (λ line, line ≠ []) lines !! i) as [line|] eqn:Hline; [|done].
  injection Hinp as <-. exists line, o. split; [done|].
  split; [apply outcome_set|].
  revert Hrs. rewrite allocate_slots_of_cons.
  destruct (write_rows _ _ _ _) as [[out' c'] e']. simpl. intros ->.
  unfold lines_out. simpl. rewrite (fieldnames_of_fresh v names Hfresh).
  split; [done|]. intros Hlen. rewrite list_lookup_fmap, Hout. simpl. f_equal.
  rewrite row_cells_annotated, fmap_app.
  f_equal.
  rewrite <- (row_cells_reader_row names line Hnd Hlen).
  unfold row_cells. apply list_fmap_ext. intros j k Hk.
  rewrite decide_False; [done|]. intros ->. apply Hfresh.
  by eapply list_elem_of_lookup_2.
Qed.

Lemma line_in_line_out_witness :
  ∃ line o,
    filter (λ line, line ≠ []) (data_lines contested_file) !! 1%nat = Some line ∧
    lines_out (Iiitk.allocate_slots contested_file) !! 2%nat =
      Some ((VStr <$> line) ++ [VStr o]).
Proof.
  destruct (line_in_line_out Extended
    ["Email"; "SLOT PREFERENCE : 1"]
    (data_lines contested_file) 1
    [ (Some "Email", VStr "b@iiitk.ac.in");
      (Some "SLOT PREFERENCE : 1", VStr "SLOT 6 (5:30PM TO 7:00PM)");
      (Some "Allocated Slot", VStr "SLOT 6 (5:30PM TO 7:00PM)") ])
    as (line & o & Hline & _ & _ & Hout).
  - apply (bool_decide_unpack (NoDup _)). vm_compute. exact I.
  - apply (bool_decide_unpack (_ ∉ _)). vm_compute. exact I.
  - vm_compute. reflexivity.
  - exists line, o. split; [exact Hline|]. apply Hout.
    revert Hline. vm_compute. intros [= <-]. reflexivity.
Defined.

(** ** The output header *)

(** X7. The header of the extended variant. The output header has the
    column "Allocated Slot": it is the input header when that has the
    column and the input header with the column added when not. A file
    that starts with an output header of this variant keeps that header
    when it is processed, and that header is the first line written. *)
Theorem reprocessing_keeps_header names lines lines' :
  let h := fieldnames_out (Iiitk.allocate_slots (names :: lines)) in
  "Allocated Slot" ∈ h ∧
  h = (if bool_decide ("Allocated Slot" ∈ names) then names
       else names ++ ["Allocated Slot"]) ∧
  fieldnames_out (Iiitk.allocate_slots (h :: lines')) = h ∧
  header_out (Iiitk.allocate_slots (h :: lines')) = Some (VStr <$> h).
Proof.
  assert (∀ ns ls, fieldnames_out (Iiitk.allocate_slots (ns :: ls)) =
                   Iiitk.fieldnames ns ∧
                   header_out (Iiitk.allocate_slots (ns :: ls)) =
                   Some (VStr <$> Iiitk.fieldnames ns)) as Hrun.
  { intros ns ls. rewrite (allocate_slots_of_cons Extended).
    by destruct (write_rows _ _ _ _) as [[??]?]. }
  intros h. unfold h. rewrite (proj1 (Hrun names lines)). clear h.
  assert ("Allocated Slot" ∈ Iiitk.fieldnames names) as Hin.
  { unfold Iiitk.fieldnames. case_bool_decide; [done|].
    apply elem_of_app. right. by apply list_elem_of_singleton. }
  assert (Iiitk.fieldnames (Iiitk.fieldnames names) = Iiitk.fieldnames names)
    as Hidem.
  { unfold Iiitk.fieldnames at 1. by rewrite bool_decide_eq_true_2. }
  split; [done|]. split.
  - done.
  - destruct (Hrun (Iiitk.fieldnames names) lines') as [-> ->].
    by rewrite Hidem.
Qed.

(** ** Outcomes that are not slots *)

Lemma first_fit_none read cap row prefs cap' :
  first_fit read cap row prefs = Ok (None, cap') →
  cap' = cap ∧
  ∀ pref, pref ∈ prefs → ∃ slot, read row pref = Ok slot ∧ no_room cap slot.
Proof.
  induction prefs as [|pref prefs IH]; simpl.
  - intros [= <-]. split; [done|]. by intros pref ?%elem_of_nil.
  - destruct (read row pref) as [v|e] eqn:Hread; [|done].
    cbv beta iota delta [mbind result_bind].
    destruct (available cap v) as [[[s c]|]|e] eqn:Hav; [done| |done].
    cbv beta iota. intros Hff. destruct (IH Hff) as [-> Hrest].
    split; [done|]. intros p [->|Hp]%elem_of_cons; [|by apply Hrest].
    exists v. split; [done|]. destruct v as [s| |l]; simpl in *; [|done..].
    intros (c & Hc & Hpos). rewrite Hc in Hav.
    by rewrite bool_decide_eq_true_2 in Hav.
Qed.

Lemma first_fit_all_no_room read cap row prefs :
  (∀ pref, pref ∈ prefs → ∃ slot, read row pref = Ok slot ∧ no_room cap slot) →
  first_fit read cap row prefs = Ok (None, cap).
Proof.
  induction prefs as [|pref prefs IH]; intros Hall; simpl; [done|].
  destruct (Hall pref) as (slot & -> & Hno); [by left|].
  cbv beta iota delta [mbind result_bind].
  rewrite (no_room_available _ _ Hno). apply IH.
  intros p Hp. apply Hall. by right.
Qed.

(** X8. "No slot allocated", in either variant and for any table with the
    configured slots: when the row body returns, the outcome is
    "No slot allocated" exactly when the record reached preference
    matching and every preference column was read and named no slot with
    remaining capacity; the table is then returned as it was. *)
Theorem no_slot_allocated_iff v cap row row' cap' :
  dom cap = dom (capacity_of v) →
  allocate_row_of v cap row = Ok (row', cap') →
  (outcome row' = Some (VStr "No slot allocated") ↔
   reaches_matching v row ∧
   ∀ pref, pref ∈ preference_columns_of v →
     ∃ slot, read_of v row pref = Ok slot ∧ no_room cap slot) ∧
  (outcome row' = Some (VStr "No slot allocated") → cap' = cap).
Proof.
  intros Hdom Hstep. pose proof (same_slots_ok v cap Hdom) as Hok.
  assert (cap !! "No slot allocated" = None) as Hno.
  { destruct Hok as [_ Hf]. apply Hf. destruct v; by left. }
  assert (∀ a c1,
    first_fit (read_of v) cap row (preference_columns_of v) = Ok (a, c1) →
    (outcome_of a = "No slot allocated" ↔ a = None)) as Hnone.
  { intros a c1 Hff. split; [|by intros ->].
    destruct (first_fit_inv _ _ _ _ _ _ Hff)
      as [[-> _]|(s & c & -> & Hs & _)]; [done|].
    rewrite (outcome_of_slot cap s c); [|by destruct Hok|done].
    intros ->. congruence. }
  assert (reaches_matching v row →
    ∃ a c1, first_fit (read_of v) cap row (preference_columns_of v) = Ok (a, c1) ∧
            row' = dict_set row (Some "Allocated Slot") (VStr (outcome_of a)) ∧
            cap' = c1) as Hmatch.
  { intros Hreach.
    destruct (first_fit (read_of v) cap row (preference_columns_of v))
      as [[a c1]|e] eqn:Hff.
    - rewrite (allocate_row_of_matching v cap row a c1 Hreach Hff) in Hstep.
      injection Hstep as <- <-. by exists a, c1.
    - exfalso. revert Hstep. destruct v; cbv [allocate_row_of].
      + unfold Gym.allocate_row. cbv [read_of preference_columns_of] in Hff.
        by rewrite Hff.
      + destruct Hreach as (em & Hem & Hend). unfold Iiitk.allocate_row.
        rewrite Hem. cbv beta iota delta [mbind result_bind].
        rewrite Hend. cbv [read_of preference_columns_of negb] in *.
        by rewrite Hff. }
  assert (outcome row' = Some (VStr "No slot allocated") → reaches_matching v row)
    as Hreach.
  { destruct v; [done|]. intros Hout. revert Hstep.
    cbv [allocate_row_of]. unfold Iiitk.allocate_row.
    destruct (Iiitk.get_strip row "Email") as [em|ex] eqn:Hem; [|done].
    cbv beta iota delta [mbind result_bind].
    destruct (endswith (lower em) Iiitk.domain) eqn:Hend; simpl.
    - intros _. by exists em.
    - intros [= <- _]. by rewrite outcome_set in Hout. }
  split; [split|].
  - intros Hout. pose proof (Hreach Hout) as Hr. split; [done|].
    destruct (Hmatch Hr) as (a & c1 & Hff & -> & ->).
    rewrite outcome_set in Hout. injection Hout as Hout.
    apply (Hnone a c1 Hff) in Hout as ->.
    by apply first_fit_none in Hff as [_ ?].
  - intros [Hr Hall]. destruct (Hmatch Hr) as (a & c1 & Hff & -> & ->).
    rewrite (first_fit_all_no_room _ _ _ _ Hall) in Hff.
    injection Hff as <- <-. apply outcome_set.
  - intros Hout. destruct (Hmatch (Hreach Hout)) as (a & c1 & Hff & -> & ->).
    rewrite outcome_set in Hout. injection Hout as Hout.
    apply (Hnone a c1 Hff) in Hout as ->.
    by apply first_fit_none in Hff as [-> _].
Qed.

Lemma no_slot_allocated_iff_witness :
  let row := reader_row ["Name"; "SLOT PREFERENCE : 1"; "SLOT PREFERENCE : 2";
                         "SLOT PREFERENCE : 3"] ["asha"; "SLOT 33"] in
  Forall (λ pref, ∃ slot, Gym.read row pref = Ok slot ∧
                          no_room Gym.capacity slot)
    Gym.preference_columns.
Proof.
  intros row. apply Forall_forall.
  refine (proj2 (proj1 (proj1 (no_slot_allocated_iff Base Gym.capacity row
    (dict_set row (Some "Allocated Slot") (VStr "No slot allocated"))
    Gym.capacity _ _)) _)).
  - reflexivity.
  - reflexivity.
  - vm_compute. reflexivity.
Defined.

(** ** The domain test *)

Lemma append_cons (x : ascii) (a b : string) :
  String x a +:+ b = String x (a +:+ b).
Proof. reflexivity. Qed.

Lemma append_assoc (a b c : string) : (a +:+ b) +:+ c = a +:+ (b +:+ c).
Proof.
  induction a as [|x a IH]; [done|]. by rewrite !append_cons, IH.
Qed.

Lemma append_nil_r (a : string) : a +:+ "" = a.
Proof. induction a as [|x a IH]; [done|]. by rewrite append_cons, IH. Qed.

Lemma rev_app_spec (s acc : string) :
  String.rev_app s acc = String.rev s +:+ acc.
Proof.
  revert acc. induction s as [|x s IH]; intros acc; [done|].
  unfold String.rev. simpl. rewrite (IH (String x acc)), (IH (String x "")).
  by rewrite append_assoc.
Qed.

Lemma rev_cons (x : ascii) (s : string) :
  String.rev (String x s) = String.rev s +:+ String x "".
Proof. unfold String.rev at 1. simpl. apply rev_app_spec. Qed.

Lemma rev_append (a b : string) :
  String.rev (a +:+ b) = String.rev b +:+ String.rev a.
Proof.
  induction a as [|x a IH].
  - change ("" +:+ b) with b. by rewrite append_nil_r.
  - by rewrite append_cons, !rev_cons, IH, append_assoc.
Qed.

Lemma rev_involutive (s : string) : String.rev (String.rev s) = s.
Proof.
  induction s as [|x s IH]; [done|].
  by rewrite rev_cons, rev_append, IH.
Qed.

Lemma prefix_spec (p s : string) :
  Stdlib.Strings.String.prefix p s = true ↔ ∃ q, s = p +:+ q.
Proof.
  revert s. induction p as [|x p IH]; intros s.
  - split; [intros _; by exists s | by destruct s].
  - destruct s as [|y s]; simpl.
    + split; [done | by intros [q ?]].
    + destruct (ascii_dec x y) as [->|Hne].
      * rewrite IH. split; intros [q Hq]; exists q.
        -- by rewrite append_cons, Hq.
        -- rewrite append_cons in Hq. congruence.
      * split; [done | intros [q Hq]; rewrite append_cons in Hq; congruence].
Qed.

(** [s.endswith(suffix)]: [s] is some string followed by [suffix]. *)
Lemma endswith_spec (s suffix : string) :
  endswith s suffix = true ↔ ∃ p, s = p +:+ suffix.
Proof.
  unfold endswith. rewrite prefix_spec. split.
  - intros [q Hq]. exists (String.rev q).
    rewrite <- (rev_involutive s), Hq, rev_append. by rewrite rev_involutive.
  - intros [p ->]. exists (String.rev p). apply rev_append.
Qed.

(** X9. "Invalid email domain", in the extended variant and for any table
    with the configured slots: when the row body returns, the e-mail was
    read, and the outcome is "Invalid email domain" exactly when the
    trimmed and lowercased e-mail is not some string followed by
    "@iiitk.ac.in"; the table is then returned as it was. *)
Theorem invalid_email_iff cap row row' cap' :
  dom cap = dom Iiitk.capacity →
  Iiitk.allocate_row cap row = Ok (row', cap') →
  ∃ e,
    Iiitk.get_strip row "Email" = Ok e ∧
    (outcome row' = Some (VStr "Invalid email domain") ↔
     ¬ ∃ p, lower e = p +:+ "@iiitk.ac.in") ∧
    (outcome row' = Some (VStr "Invalid email domain") → cap' = cap).
Proof.
  intros Hdom. pose proof (same_slots_ok Extended cap Hdom) as Hok.
  assert (cap !! "Invalid email domain" = None) as Hinv.
  { destruct Hok as [_ Hf]. apply Hf. right. by left. }
  unfold Iiitk.allocate_row.
  destruct (Iiitk.get_strip row "Email") as [e|ex]; [|done].
  cbv beta iota delta [mbind result_bind]. intros Hstep. exists e.
  split; [done|]. rewrite <- endswith_spec. fold Iiitk.domain.
  destruct (endswith (lower e) Iiitk.domain) eqn:Hend; cbn [negb] in Hstep.
  - destruct (first_fit _ _ _ _) as [[a c1]|ex] eqn:Hff; [|done].
    injection Hstep as <- <-. rewrite outcome_set.
    assert (outcome_of a ≠ "Invalid email domain") as Hne.
    { destruct (first_fit_inv _ _ _ _ _ _ Hff)
        as [[-> _]|(s & c & -> & Hs & _)]; [done|].
      rewrite (outcome_of_slot cap s c); [|by destruct Hok|done].
      intros ->. congruence. }
    split; [|by intros [= ?]]. split; [by intros [= ?] | by intros []].
  - injection Hstep as <- <-. rewrite outcome_set.
    split; [|done]. split; [by intros _ ? | done].
Qed.

Lemma invalid_email_iff_witness :
  let row := reader_row ["Email"; "SLOT PREFERENCE : 1"]
               ["b@mail.iiitk.ac.in.org"; "SLOT 6 (5:30PM TO 7:00PM)"] in
  ∃ e,
    Iiitk.get_strip row "Email" = Ok e ∧
    ¬ ∃ p, lower e = p +:+ "@iiitk.ac.in".
Proof.
  intros row.
  destruct (invalid_email_iff Iiitk.capacity row
    (dict_set row (Some "Allocated Slot") (VStr "Invalid email domain"))
    Iiitk.capacity) as (e & He & Hiff & _).
  - reflexivity.
  - apply (iiitk_allocate_row_invalid _ _ "b@mail.iiitk.ac.in.org");
      vm_compute; reflexivity.
  - exists e. split; [exact He|]. apply Hiff. vm_compute. reflexivity.
Defined.

(** ** More applicants, fewer applicants *)

Lemma DictReader_app names lines more :
  DictReader names (lines ++ more) =
  DictReader names lines ++ DictReader names more.
Proof. unfold DictReader. by rewrite filter_app, fmap_app. Qed.

(** X10. Lines added at the end of the input change nothing for the
    applicants before them: in either variant the records of the shorter
    input are the first records of the longer one, and a run that ended
    with an exception ends in the same way, with the same records and the
    same table, whatever follows. *)
Theorem earlier_records_unchanged v names lines more :
  records (allocate_slots_of v (names :: lines)) `prefix_of`
    records (allocate_slots_of v (names :: lines ++ more)) ∧
  (raised (allocate_slots_of v (names :: lines)) ≠ None →
   allocate_slots_of v (names :: lines ++ more) =
   allocate_slots_of v (names :: lines)).
Proof.
  rewrite !allocate_slots_of_cons, DictReader_app, write_rows_app.
  destruct (write_rows _ _ _ (DictReader names lines)) as [[o1 c1] [ex|]].
  - simpl. split; [done|]. done.
  - destruct (write_rows _ _ c1 _) as [[o2 c2] e2]. simpl.
    split; [by exists o2 | done].
Qed.

(** A header and blank lines only: the header is written and nothing
    else happens. *)
Lemma header_only_lines v names lines :
  Forall (λ line : list string, line = []) lines →
  allocate_slots_of v (names :: lines) =
  Run (fieldnames_of v names) (Some (VStr <$> fieldnames_of v names)) []
    (capacity_of v) None.
Proof.
  intros Hblank. rewrite allocate_slots_of_cons.
  assert (DictReader names lines = []) as ->; [|done].
  unfold DictReader. induction Hblank as [|line lines -> _ IH]; [done|].
  rewrite filter_cons. by rewrite decide_False by (by intros []).
Qed.

(** ** The table from the records *)

(** X12. The table when input record [i] is processed can be read off the
    output so far: in either variant, for each slot, the remaining
    capacity is the configured capacity less the number of the [i] records
    written before that carry the slot. *)
Theorem remaining_capacity v infile i ci s c0 :
  capacity_when v infile i = Some ci →
  capacity_of v !! s = Some c0 →
  ci !! s =
  Some (c0 - Z.of_nat (count_outcome s
                         (take i (records (allocate_slots_of v infile))))).
Proof.
  intros [o1 Hpre]%capacity_when_inv Hs.
  destruct (records_of_run v infile) as (out & c & e & Hrun & -> & _).
  assert (take i out = o1) as ->.
  { pose proof (write_rows_length _ _ _ _ _ _ _ Hpre) as Hlen. simpl in Hlen.
    rewrite <- (take_drop i (input_records infile)), write_rows_app, Hpre in Hrun.
    destruct (write_rows _ _ ci _) as [[o2 c2] e2] eqn:Hrest.
    injection Hrun as <- _ _.
    destruct (decide (i ≤ length (input_records infile))%nat) as [Hle|Hgt].
    - rewrite length_take, Nat.min_l in Hlen by done.
      by rewrite take_app_length' by done.
    - rewrite drop_ge in Hrest by lia. injection Hrest as <- _ _.
      rewrite app_nil_r. apply take_ge. rewrite Hlen, length_take. lia. }
  destruct (write_rows_exact _ _ _ (step_transition_of v) _ _ _ _ _ s c0
              (capacity_of_ok v) Hpre Hs) as (c' & -> & _ & Hexact).
  f_equal. specialize (Hexact ltac:(done)). lia.
Qed.

(** In a run that raises nothing the table is there at every moment. *)
Lemma capacity_when_completed v infile i :
  raised (allocate_slots_of v infile) = None →
  is_Some (capacity_when v infile i).
Proof.
  destruct infile as [|names lines].
  { by rewrite allocate_slots_of_nil. }
  rewrite allocate_slots_of_cons. unfold capacity_when. simpl.
  rewrite <- (take_drop i (DictReader names lines)) at 1.
  rewrite write_rows_app.
  destruct (write_rows _ _ _ (take i _)) as [[o1 c1] [ex|]]; [done|].
  by destruct (write_rows _ _ c1 _) as [[o2 c2] e2].
Qed.

Lemma remaining_capacity_witness :
  ∃ ci,
    capacity_when Extended contested_file 2 = Some ci ∧
    ci !! "SLOT 6 (5:30PM TO 7:00PM)" = Some 0.
Proof.
  destruct (capacity_when_completed Extended contested_file 2) as [ci Hci].
  { vm_compute. reflexivity. }
  exists ci. split; [exact Hci|].
  rewrite (remaining_capacity Extended contested_file 2 ci
             "SLOT 6 (5:30PM TO 7:00PM)" 1 Hci).
  - vm_compute. reflexivity.
  - vm_compute. reflexivity.
Defined.

(** ** What a record's outcome can be *)

Lemma count_outcome_pos s rs r :
  r ∈ rs → outcome r = Some (VStr s) → (0 < count_outcome s rs)%nat.
Proof.
  intros Hr Ho. destruct (count_outcome s rs) as [|n] eqn:Hcount; [|lia].
  exfalso. by apply (count_outcome_zero s rs r).
Qed.

(** X13. The outcome of every output record, in either variant and for
    any input: "No slot allocated", or, in the extended variant only,
    "Invalid email domain", or a slot of the capacity table whose
    configured capacity is above 0. *)
Theorem outcome_of_every_record v infile out :
  out ∈ records (allocate_slots_of v infile) →
  ∃ o,
    outcome out = Some (VStr o) ∧
    (o = "No slot allocated" ∨
     (v = Extended ∧ o = "Invalid email domain") ∨
     (∃ c0, capacity_of v !! o = Some c0 ∧ 0 < c0)).
Proof.
  intros Hin. pose proof Hin as [i Hout]%list_elem_of_lookup_1.
  destruct (records_of_run v infile) as (rs & c & e & Hrun & Hrs & _).
  rewrite Hrs in Hout, Hin.
  destruct (write_rows_records _ _ _ (step_transition_of v) _ _ _ _ _
              (capacity_of_ok v) Hrun _ _ Hout) as (inp & o & _ & Heq & Ho & _).
  exists o. assert (outcome out = Some (VStr o)) as Hoc.
  { rewrite Heq. apply outcome_set. }
  split; [done|]. destruct Ho as [Hfall|[c0 Hc0]].
  - destruct v; simpl in Hfall.
    + apply list_elem_of_singleton in Hfall. by left.
    + apply elem_of_cons in Hfall as [->|Hfall]; [by left|].
      apply list_elem_of_singleton in Hfall. right. by left.
  - right. right. exists c0. split; [done|].
    destruct (write_rows_bound _ _ _ (step_transition_of v) _ _ _ _ _
                (capacity_of_ok v) Hrun) as [_ Hb].
    specialize (Hb o). rewrite Hc0 in Hb. destruct Hb as (c' & _ & Hnn & Hle).
    pose proof (capacity_of_nonneg v o c0 Hc0).
    pose proof (count_outcome_pos o rs out Hin Hoc). lia.
Qed.

Lemma outcome_of_every_record_witness :
  ∃ o,
    outcome [ (Some "Name", VStr "asha");
              (Some "SLOT PREFERENCE : 1", VStr "SLOT 33");
              (Some "SLOT PREFERENCE : 2", VNone);
              (Some "SLOT PREFERENCE : 3", VNone);
              (Some "Allocated Slot", VStr "No slot allocated") ] =
      Some (VStr o) ∧
    (o = "No slot allocated" ∨
     (Base = Extended ∧ o = "Invalid email domain") ∨
     (∃ c0, Gym.capacity !! o = Some c0 ∧ 0 < c0)).
Proof.
  apply (outcome_of_every_record Base short_line_file).
  vm_compute. left.
Defined.

(** ** Columns that play no part *)

Lemma first_fit_ext read cap row1 row2 prefs :
  (∀ pref, pref ∈ prefs → read row1 pref = read row2 pref) →
  first_fit read cap row1 prefs = first_fit read cap row2 prefs.
Proof.
  induction prefs as [|pref prefs IH]; intros Hsame; simpl; [done|].
  rewrite (Hsame pref) by (by left).
  destruct (read row2 pref) as [v|e]; [|done].
  cbv beta iota delta [mbind result_bind].
  destruct (available cap v) as [[[s c]|]|e]; [done| |done].
  apply IH. intros p Hp. apply Hsame. by right.
Qed.

(** X14. Only the columns a variant reads count: two records that agree
    on the three preference columns (base variant), or on "Email" and the
    nine preference columns (extended variant), get the same outcome and
    leave the same table, or raise the same exception, whatever their
    other columns hold. *)
Theorem other_columns_ignored v cap row1 row2 :
  (∀ k, k ∈ columns_read v → dict_get row1 (Some k) = dict_get row2 (Some k)) →
  decision (allocate_row_of v cap row1) = decision (allocate_row_of v cap row2).
Proof.
  intros Hsame. destruct v; cbv [allocate_row_of columns_read] in *.
  - unfold Gym.allocate_row.
    rewrite (first_fit_ext Gym.read cap row1 row2 Gym.preference_columns).
    2:{ intros pref Hpref. unfold Gym.read. by rewrite (Hsame pref Hpref). }
    destruct (first_fit _ _ row2 _) as [[a c]|e]; [|done].
    cbv beta iota delta [mbind result_bind decision]. by rewrite !outcome_set.
  - assert (∀ k, k ∈ "Email" :: Iiitk.preference_columns →
              Iiitk.get_strip row1 k = Iiitk.get_strip row2 k) as Hstrip.
    { intros k Hk. unfold Iiitk.get_strip. by rewrite (Hsame k Hk). }
    unfold Iiitk.allocate_row. rewrite (Hstrip "Email") by (by left).
    destruct (Iiitk.get_strip row2 "Email") as [em|ex]; [|done].
    cbv beta iota delta [mbind result_bind].
    destruct (negb _).
    { cbv [decision]. by rewrite !outcome_set. }
    rewrite (first_fit_ext Iiitk.read cap row1 row2 Iiitk.preference_columns).
    2:{ intros pref Hpref. unfold Iiitk.read.
        by rewrite (Hstrip pref) by (by right). }
    destruct (first_fit _ _ row2 _) as [[a c]|e]; [|done].
    cbv beta iota delta [decision]. by rewrite !outcome_set.
Qed.

Lemma other_columns_ignored_witness :
  let names := ["Name"; "SLOT PREFERENCE : 1"; "SLOT PREFERENCE : 2";
                "SLOT PREFERENCE : 3"] in
  let prefs := ["SLOT 5 (7:00PM TO 8:30PM)"; "SLOT 4 (5:30PM TO 7:00PM)"; ""] in
  decision (Gym.allocate_row Gym.capacity (reader_row names ("asha" :: prefs))) =
  decision (Gym.allocate_row Gym.capacity (reader_row names ("bina" :: prefs))).
Proof.
  intros names prefs.
  apply (other_columns_ignored Base).
  intros k Hk. simpl in Hk.
  repeat (apply elem_of_cons in Hk as [->|Hk]; [reflexivity|]).
  by apply elem_of_nil in Hk.
Defined.

(** ** Places in all *)

Lemma count_outcome_nil s : count_outcome s [] = 0%nat.
Proof. done. Qed.

Lemma placed_cons v r rs :
  placed v (r :: rs) = ((if has_slot v r then 1 else 0) + placed v rs)%nat.
Proof. unfold placed. simpl. by destruct (has_slot v r). Qed.

(** Over labels without repetition, a record counts for one label at
    most. *)
Lemma sum_outcome_one (r : dict) (L : list string) :
  NoDup L →
  sum_list ((λ s, if decide (outcome r = Some (VStr s)) then 1 else 0)%nat <$> L) =
  if bool_decide (Exists (λ s, outcome r = Some (VStr s)) L)
  then 1%nat else 0%nat.
Proof.
  induction L as [|s L IH]; intros Hnd.
  - done.
  - apply NoDup_cons in Hnd as [Hs Hnd]. rewrite fmap_cons. simpl.
    rewrite (IH Hnd). case_decide as Hout.
    + rewrite bool_decide_eq_false_2.
      2:{ intros (s' & Hs' & Hout')%Exists_exists. rewrite Hout in Hout'.
          injection Hout' as <-. done. }
      rewrite bool_decide_eq_true_2; [done|]. by apply Exists_cons_hd.
    + simpl. apply (f_equal (λ b : bool, if b then 1%nat else 0%nat)).
      apply bool_decide_ext. rewrite Exists_cons. tauto.
Qed.

Lemma sum_list_fmap_add {A} (f g : A → nat) (l : list A) :
  sum_list ((λ x, f x + g x)%nat <$> l) =
  (sum_list (f <$> l) + sum_list (g <$> l))%nat.
Proof. induction l as [|x l IH]; csimpl; [done|]. rewrite IH. lia. Qed.

Lemma sum_list_zero {A} (l : list A) : sum_list ((λ _, 0%nat) <$> l) = 0%nat.
Proof. induction l as [|x l IH]; csimpl; [done|]. by rewrite IH. Qed.

(** The records that carry a slot, counted slot by slot. *)
Lemma placed_by_slot v (rs : list dict) :
  placed v rs =
  sum_list ((λ s, count_outcome s rs) <$> (map_to_list (capacity_of v)).*1).
Proof.
  set (L := (map_to_list (capacity_of v)).*1).
  assert (NoDup L) as Hnd by apply NoDup_fst_map_to_list.
  assert (∀ s, s ∈ L ↔ is_Some (capacity_of v !! s)) as HL.
  { intros s. unfold L. rewrite list_elem_of_fmap. split.
    - intros ([s' c] & -> & Hin%elem_of_map_to_list). by exists c.
    - intros [c Hc]. exists (s, c). split; [done|].
      by apply elem_of_map_to_list. }
  induction rs as [|r rs IH].
  - exact (eq_sym (sum_list_zero L)).
  - rewrite placed_cons, IH.
    rewrite (list_fmap_ext (λ s, count_outcome s (r :: rs))
               (λ s, ((if decide (outcome r = Some (VStr s)) then 1 else 0)
                      + count_outcome s rs)%nat) L)
      by (intros; apply count_outcome_cons).
    rewrite sum_list_fmap_add, (sum_outcome_one r L Hnd). f_equal.
    unfold has_slot. destruct (outcome r) as [[s| |l]|] eqn:Hout.
    + apply (f_equal (λ b : bool, if b then 1%nat else 0%nat)).
      apply bool_decide_ext. rewrite <- HL, Exists_exists. split.
      * intros Hs. by exists s.
      * by intros (s' & Hs' & [= <-]).
    + by rewrite bool_decide_eq_false_2
        by (by intros (? & _ & [=])%Exists_exists).
    + by rewrite bool_decide_eq_false_2
        by (by intros (? & _ & [=])%Exists_exists).
    + by rewrite bool_decide_eq_false_2
        by (by intros (? & _ & [=])%Exists_exists).
Qed.

Lemma sum_bounded (M : list (string * Z)) (f : string → nat) :
  (∀ s c, (s, c) ∈ M → Z.of_nat (f s) ≤ c) →
  Z.of_nat (sum_list (f <$> M.*1)) ≤ foldr (λ kv acc, kv.2 + acc) 0 M.
Proof.
  induction M as [|[s c] M IH]; intros Hb; [done|].
  change (Z.of_nat (f s + sum_list (f <$> M.*1))
          ≤ c + foldr (λ kv acc, kv.2 + acc) 0 M).
  rewrite Nat2Z.inj_add.
  apply Z.add_le_mono.
  - apply Hb. by left.
  - apply IH. intros s' c' Hin. apply Hb. by right.
Qed.

Lemma count_within_capacity v infile s c0 :
  capacity_of v !! s = Some c0 →
  Z.of_nat (count_outcome s (records (allocate_slots_of v infile))) ≤ c0.
Proof.
  intros Hs. destruct (records_of_run v infile) as (out & c & e & Hrun & -> & _).
  destruct (write_rows_bound _ _ _ (step_transition_of v) _ _ _ _ _
              (capacity_of_ok v) Hrun) as [_ Hb].
  specialize (Hb s). rewrite Hs in Hb. destruct Hb as (c' & _ & Hnn & Hle).
  pose proof (capacity_of_nonneg v s c0 Hs). lia.
Qed.

(** X15. Places in all: the number of output records that carry a slot
    is at most the sum of the configured capacities, 29 in the base
    variant and 135 in the extended one, for any input. *)
Theorem places_in_all v infile :
  Z.of_nat (placed v (records (allocate_slots_of v infile))) ≤
  match v with Base => 29 | Extended => 135 end.
Proof.
  rewrite placed_by_slot.
  etrans; [apply sum_bounded|].
  - intros s c Hin%elem_of_map_to_list. by apply count_within_capacity.
  - destruct v; vm_compute; discriminate.
Qed.


(** ** The slot a record carries *)

Lemma available_None cap v : available cap v = Ok None → no_room cap v.
Proof.
  destruct v as [s| |l]; simpl; [|done..].
  intros Hav (c & Hc & Hpos). rewrite Hc in Hav.
  by rewrite bool_decide_eq_true_2 in Hav.
Qed.

Lemma first_fit_some read cap row prefs s cap' :
  first_fit read cap row prefs = Ok (Some s, cap') →
  ∃ k, first_available read cap row prefs k s.
Proof.
  induction prefs as [|pref prefs IH]; simpl; [done|].
  destruct (read row pref) as [v|e] eqn:Hread; [|done].
  cbv beta iota delta [mbind result_bind].
  destruct (available cap v) as [[[s' c]|]|e] eqn:Hav; [| |done].
  - intros [= -> _]. apply available_Some in Hav as (-> & Hc & Hpos).
    exists 0%nat. split; [|split].
    + by exists pref.
    + by exists c.
    + intros j p Hj. lia.
  - cbv beta iota. intros Hff.
    destruct (IH Hff) as (k & (p & Hp & Hs) & Hroom & Hearlier).
    exists (S k). split; [|split].
    + by exists p.
    + done.
    + intros [|j] q Hj Hq.
      * injection Hq as <-. exists v. split; [done|]. by apply available_None.
      * apply (Hearlier j); [lia|done].
Qed.

(** X16. Only a listed slot is given, in either variant and for any
    input: when output record [i] carries an outcome that is not
    "No slot allocated" (nor, in the extended variant,
    "Invalid email domain"), input record [i] reached preference
    matching and that outcome is what one of its
    preference columns holds (the cell in the base variant, the trimmed
    cell in the extended one); it had room in the table when the record
    was processed, and every earlier preference column was read and
    named no slot with room. *)
Theorem slot_given_was_listed v infile i out s :
  records (allocate_slots_of v infile) !! i = Some out →
  outcome out = Some (VStr s) →
  s ∉ fallbacks_of v →
  ∃ row ci k,
    input_records infile !! i = Some row ∧
    capacity_when v infile i = Some ci ∧
    reaches_matching v row ∧
    first_available (read_of v) ci row (preference_columns_of v) k s.
Proof.
  intros Hrec Hout Hs.
  destruct (record_step v infile i out Hrec) as (row & ci & cj & Hrow & Hci & Hstep & _).
  exists row, ci.
  assert (∀ a, outcome_of a = s → ∃ s', a = Some s' ∧ s' = s) as Hgiven.
  { intros [s'|]; unfold outcome_of.
    - destruct (truthy s'); [by exists s'|].
      intros <-. destruct Hs. destruct v; simpl; by left.
    - intros <-. destruct Hs. destruct v; simpl; by left. }
  assert (reaches_matching v row ∧
          ∃ cap', first_fit (read_of v) ci row (preference_columns_of v)
                  = Ok (Some s, cap')) as [Hreach [cap' Hff]].
  { destruct v; cbv [allocate_row_of reaches_matching read_of
                     preference_columns_of fallbacks_of] in *.
    - split; [done|]. unfold Gym.allocate_row in Hstep.
      destruct (first_fit _ _ _ _) as [[a c]|e]; [|done].
      injection Hstep as <- _. rewrite outcome_set in Hout.
      injection Hout as Ho. destruct (Hgiven a Ho) as (s' & -> & ->).
      by exists c.
    - unfold Iiitk.allocate_row in Hstep.
      destruct (Iiitk.get_strip row "Email") as [e|ex]; [|done].
      cbv beta iota delta [mbind result_bind] in Hstep.
      destruct (endswith (lower e) Iiitk.domain) eqn:Hdom; cbn [negb] in Hstep.
      + split; [by exists e|].
        destruct (first_fit _ _ _ _) as [[a c]|ex]; [|done].
        injection Hstep as <- _. rewrite outcome_set in Hout.
        injection Hout as Ho. destruct (Hgiven a Ho) as (s' & -> & ->).
        by exists c.
      + injection Hstep as <- _. rewrite outcome_set in Hout.
        injection Hout as <-. destruct Hs. right. by left. }
  destruct (first_fit_some _ _ _ _ _ _ Hff) as [k Hk].
  by exists k.
Qed.

Lemma slot_given_was_listed_witness :
  ∃ row ci k,
    input_records contested_file !! 1%nat = Some row ∧
    capacity_when Extended contested_file 1 = Some ci ∧
    reaches_matching Extended row ∧
    first_available Iiitk.read ci row Iiitk.preference_columns k
      "SLOT 6 (5:30PM TO 7:00PM)".
Proof.
  pose (out := default [] (records (Iiitk.allocate_slots contested_file) !! 1%nat)).
  apply (slot_given_was_listed Extended contested_file 1 out
           "SLOT 6 (5:30PM TO 7:00PM)").
  - vm_compute. reflexivity.
  - vm_compute. reflexivity.
  - apply (bool_decide_unpack _). vm_compute. exact I.
Defined.

(** ** Cells as the extended variant reads them *)

(** X17. The extended variant decides on normalised cells: two records
    whose "Email" cells agree once trimmed and put in lower case, and
    whose nine preference cells agree once trimmed, get the same outcome
    and leave the same table, or raise the same exception; white space
    around a cell and the case of the address do not count. *)
Theorem trimmed_cells_decide cap row1 row2 :
  email_of row1 = email_of row2 →
  (∀ pref, pref ∈ Iiitk.preference_columns →
     Iiitk.get_strip row1 pref = Iiitk.get_strip row2 pref) →
  decision (Iiitk.allocate_row cap row1) = decision (Iiitk.allocate_row cap row2).
Proof.
  intros Hemail Hprefs. unfold Iiitk.allocate_row. unfold email_of in Hemail.
  destruct (Iiitk.get_strip row1 "Email") as [e1|x1],
           (Iiitk.get_strip row2 "Email") as [e2|x2];
    cbv beta iota delta [mbind result_bind] in *; try done.
  - injection Hemail as ->.
    destruct (negb _).
    { cbv [decision]. by rewrite !outcome_set. }
    rewrite (first_fit_ext Iiitk.read cap row1 row2 Iiitk.preference_columns).
    2:{ intros pref Hpref. unfold Iiitk.read. by rewrite (Hprefs pref Hpref). }
    destruct (first_fit _ _ row2 _) as [[a c]|e]; [|done].
    cbv beta iota delta [decision]. by rewrite !outcome_set.
  - by injection Hemail as ->.
Qed.

Lemma trimmed_cells_decide_witness :
  let names := ["Email"; "SLOT PREFERENCE : 1"] in
  decision (Iiitk.allocate_row Iiitk.capacity
              (reader_row names [" B@IIITK.ac.in "; "  SLOT 6 (5:30PM TO 7:00PM) "])) =
  decision (Iiitk.allocate_row Iiitk.capacity
              (reader_row names ["b@iiitk.ac.in"; "SLOT 6 (5:30PM TO 7:00PM)"])).
Proof.
  intros names.
  apply trimmed_cells_decide.
  - vm_compute. reflexivity.
  - intros pref Hpref. vm_compute in Hpref.
    repeat (apply elem_of_cons in Hpref as [->|Hpref]; [vm_compute; reflexivity|]).
    by apply elem_of_nil in Hpref.
Defined.

(** * The table, first fit and priority along a run *)

(** ** The row bodies of a run and its tables *)

Section Bodies.

Variable step : gmap string Z → dict → result (dict * gmap string Z).
Variable fieldnames : list string.
Variable fallbacks : list string.

Hypothesis step_transition : ∀ cap row row' cap',
  table_ok fallbacks cap →
  step cap row = Ok (row', cap') →
  transition fallbacks cap row row' cap'.

(** The records written are the records of the first bodies, and the
    table the loop ends with is the one the last body left. *)
Lemma bodies_write_rows rows : ∀ cap out c e,
  write_rows step fieldnames cap rows = (out, c, e) →
  out `prefix_of` (bodies step fieldnames cap rows).*1 ∧
  last (cap :: (bodies step fieldnames cap rows).*2) = Some c ∧
  (e = None → length (bodies step fieldnames cap rows) = length rows) ∧
  (length (bodies step fieldnames cap rows) ≤ S (length out))%nat.
Proof.
  induction rows as [|row rows IH]; intros cap out c e; simpl.
  - intros [= <- <- <-]. repeat split; [done|lia].
  - destruct (step cap row) as [[row' cap1]|e1].
    2:{ intros [= <- <- <-]. repeat split; [by apply prefix_nil|done|simpl; lia]. }
    destruct (writerow fieldnames row') as [cells|e1].
    2:{ intros [= <- <- <-]. repeat split; [by apply prefix_nil|done|simpl; lia]. }
    destruct (write_rows step fieldnames cap1 rows) as [[out1 c1] e2] eqn:Hrec.
    intros [= <- <- <-].
    destruct (IH _ _ _ _ Hrec) as (Hpre & Hlast & Hlen & Hle).
    split; [by apply prefix_cons|]. split; [|split].
    + rewrite fmap_cons. cbn [snd]. by rewrite last_cons_cons.
    + intros He. cbn [length]. by rewrite Hlen.
    + cbn [length]. lia.
Qed.

(** Body [i] is the row body of input record [i], run on the table the
    body before it left. *)
Lemma bodies_step rows : ∀ cap i r cj,
  bodies step fieldnames cap rows !! i = Some (r, cj) →
  ∃ row ci,
    rows !! i = Some row ∧
    (cap :: (bodies step fieldnames cap rows).*2) !! i = Some ci ∧
    step ci row = Ok (r, cj).
Proof.
  induction rows as [|row rows IH]; intros cap i r cj; simpl.
  - by rewrite ?lookup_nil.
  - destruct (step cap row) as [[row' cap1]|e1] eqn:Hstep.
    2:{ by rewrite ?lookup_nil. }
    destruct i as [|i]; simpl.
    + intros [= <- <-]. by exists row, cap.
    + destruct (writerow fieldnames row') as [cells|e1].
      2:{ by rewrite ?lookup_nil. }
      intros Hi. destruct (IH _ _ _ _ Hi) as (row0 & ci & Hrow & Hci & Hs).
      by exists row0, ci.
Qed.

(** Every table of the loop keeps the keys of the first one, with values
    that are not higher and that stay at 0 or above. *)
Lemma bodies_tables_from rows : ∀ cap j cj s,
  table_ok fallbacks cap →
  (cap :: (bodies step fieldnames cap rows).*2) !! j = Some cj →
  table_ok fallbacks cj ∧
  match cap !! s with
  | Some c => ∃ c', cj !! s = Some c' ∧ c' ≤ c ∧ (0 ≤ c → 0 ≤ c')
  | None => cj !! s = None
  end.
Proof.
  induction rows as [|row rows IH]; intros cap j cj s' Hok.
  - destruct j as [|j]; simpl; [|by rewrite ?lookup_nil].
    intros [= <-]. split; [done|].
    destruct (cap !! s') as [c|] eqn:Hs; [|done].
    exists c. split; [done|]. split; [lia|done].
  - destruct j as [|j]; simpl.
    { intros [= <-]. split; [done|].
      destruct (cap !! s') as [c|] eqn:Hs; [|done].
      exists c. split; [done|]. split; [lia|done]. }
    destruct (step cap row) as [[row' cap1]|e1] eqn:Hstep.
    2:{ by rewrite ?lookup_nil. }
    pose proof (step_transition _ _ _ _ Hok Hstep) as Ht.
    pose proof (transition_table_ok _ _ _ _ _ Ht Hok) as Hok1.
    pose proof (transition_lookup _ _ _ _ _ s' Hok Ht) as Hl.
    rewrite fmap_cons. cbn [snd].
    intros Hj.
    assert ((cap1 :: (bodies step fieldnames cap1 rows).*2) !! j = Some cj
            ∨ cj = cap1) as [Hj'| ->].
    { destruct (writerow fieldnames row') as [cells|e1]; [by left|].
      destruct j as [|j]; simpl in Hj; [right; congruence|].
      by rewrite ?lookup_nil in Hj. }
    + destruct (IH _ _ _ s' Hok1 Hj') as [Hokj Hrest]. split; [done|].
      destruct (cap !! s') as [c|].
      * destruct Hl as (c1 & Hc1 & Hnn & Hle). rewrite Hc1 in Hrest.
        destruct Hrest as (c2 & Hc2 & Hle2 & Hnn2). exists c2.
        split; [done|]. split; [|tauto]. case_decide; lia.
      * by rewrite Hl in Hrest.
    + split; [done|]. destruct (cap !! s') as [c|]; [|done].
      destruct Hl as (c1 & Hc1 & Hnn & Hle). exists c1.
      split; [done|]. split; [|done]. case_decide; lia.
Qed.

(** Between two moments of the loop no entry increases, and an entry that
    is at 0 or above stays so. *)
Lemma bodies_tables_between rows : ∀ cap i j ci cj s c,
  table_ok fallbacks cap →
  (i ≤ j)%nat →
  (cap :: (bodies step fieldnames cap rows).*2) !! i = Some ci →
  (cap :: (bodies step fieldnames cap rows).*2) !! j = Some cj →
  ci !! s = Some c →
  ∃ c', cj !! s = Some c' ∧ c' ≤ c ∧ (0 ≤ c → 0 ≤ c').
Proof.
  induction rows as [|row rows IH]; intros cap i j ci cj s c Hok Hij.
  - destruct i as [|i], j as [|j]; simpl; rewrite ?lookup_nil; try done.
    intros [= <-] [= <-] Hs. exists c. split; [done|]. split; [lia|done].
  - destruct i as [|i].
    { simpl. intros [= <-] Hj Hs.
      destruct (bodies_tables_from (row :: rows) cap j cj s Hok Hj) as [_ H].
      by rewrite Hs in H. }
    destruct j as [|j]; [lia|]. simpl.
    destruct (step cap row) as [[row' cap1]|e1] eqn:Hstep.
    2:{ by rewrite ?lookup_nil. }
    pose proof (step_transition _ _ _ _ Hok Hstep) as Ht.
    pose proof (transition_table_ok _ _ _ _ _ Ht Hok) as Hok1.
    rewrite fmap_cons. cbn [snd].
    destruct (writerow fieldnames row') as [cells|e1].
    + apply IH; [done|lia].
    + destruct i as [|i], j as [|j]; simpl; rewrite ?lookup_nil; try done.
      intros [= <-] [= <-] Hs. exists c. split; [done|]. split; [lia|done].
Qed.

(** The loop over [rows1 ++ rows2]: the bodies of [rows1], then, when all
    of them were written, the bodies of [rows2]. *)
Lemma bodies_app rows1 rows2 : ∀ cap,
  bodies step fieldnames cap (rows1 ++ rows2) =
  match write_rows step fieldnames cap rows1 with
  | (_, cap1, None) =>
      bodies step fieldnames cap rows1 ++ bodies step fieldnames cap1 rows2
  | (_, _, Some _) => bodies step fieldnames cap rows1
  end.
Proof.
  induction rows1 as [|row rows1 IH]; intros cap; simpl; [done|].
  destruct (step cap row) as [[row' cap1]|e1]; [|done].
  destruct (writerow fieldnames row') as [cells|e1]; [|done].
  rewrite IH.
  by destruct (write_rows step fieldnames cap1 rows1) as [[out1 c1] [e1|]].
Qed.

End Bodies.

(** The table a run has reached input record [i] with is table [i] of the
    run, and the body of that record, when it returns, gives table
    [S i], whether the record is then written or not. *)
Lemma tables_reached v infile i row ci :
  input_records infile !! i = Some row →
  capacity_when v infile i = Some ci →
  tables v infile !! i = Some ci ∧
  ∀ row' cj, allocate_row_of v ci row = Ok (row', cj) →
    bodies_of v infile !! i = Some (row', cj) ∧
    tables v infile !! S i = Some cj.
Proof.
  intros Hrow [o1 Hpre]%capacity_when_inv.
  pose proof (take_drop_middle _ _ _ Hrow) as Hsplit.
  pose proof (lookup_lt_Some _ _ _ Hrow) as Hlt.
  destruct (bodies_write_rows _ _ _ _ _ _ _ Hpre) as (_ & Hlast & Hlen & _).
  specialize (Hlen eq_refl). rewrite length_take, Nat.min_l in Hlen by lia.
  assert (bodies_of v infile =
          bodies (allocate_row_of v) (fieldnames_of v (hd [] infile))
            (capacity_of v) (take i (input_records infile)) ++
          bodies (allocate_row_of v) (fieldnames_of v (hd [] infile)) ci
            (row :: drop (S i) (input_records infile))) as Hb.
  { unfold bodies_of. rewrite <- Hsplit at 1. by rewrite bodies_app, Hpre. }
  set (pre := bodies _ _ _ (take i _)) in *.
  assert (tables v infile !! i = Some ci) as Hi.
  { unfold tables. rewrite Hb, fmap_app, app_comm_cons.
    rewrite lookup_app_l by (cbn [length]; rewrite length_fmap; lia).
    rewrite last_lookup in Hlast. cbn [length] in Hlast.
    rewrite length_fmap, Hlen in Hlast. exact Hlast. }
  split; [done|]. intros row' cj Hstep.
  assert (bodies_of v infile !! i = Some (row', cj)) as Hbi.
  { rewrite Hb, lookup_app_r by lia. rewrite Hlen, Nat.sub_diag.
    simpl. by rewrite Hstep. }
  split; [done|]. unfold tables.
  change ((bodies_of v infile).*2 !! i = Some cj).
  by rewrite list_lookup_fmap, Hbi.
Qed.

(** The bodies of a run, read on the run. *)
Lemma bodies_of_run v infile :
  records (allocate_slots_of v infile) `prefix_of` (bodies_of v infile).*1 ∧
  last (tables v infile) = Some (capacity_end (allocate_slots_of v infile)) ∧
  (length (bodies_of v infile) ≤
   S (length (records (allocate_slots_of v infile))))%nat.
Proof.
  destruct infile as [|names lines].
  { rewrite allocate_slots_of_nil.
    repeat split; [by apply prefix_nil|simpl; lia]. }
  destruct (records_of_run v (names :: lines)) as (out & c & e & Hrun & -> & Hend).
  destruct Hend as [-> _]; [done|].
  by destruct (bodies_write_rows _ _ _ _ _ _ _ Hrun) as (? & ? & _ & ?).
Qed.

(** C7. Capacity discipline, for either variant and any input. The tables
    of a run are the configured table and then the table each row body
    leaves, the body of a record that [writerow] then refuses included:
    there is one body for each record written and at most one more, and
    the last table is the one the run ends with. From one table to
    the next, the body of one input record has run: either it left the
    table as it was and gave a fallback outcome, or it changed exactly one
    entry, which was above 0 and is lower by exactly 1, and gave that slot
    as the outcome; a record written at that step is the record of that
    body. Between any two moments no entry increases and none is below 0.
    A slot configured with capacity 0 is the outcome of no row body, and
    so of no record written. *)
Theorem capacity_discipline v infile :
  tables v infile !! 0%nat = Some (capacity_of v) ∧
  last (tables v infile) = Some (capacity_end (allocate_slots_of v infile)) ∧
  (length (records (allocate_slots_of v infile)) ≤ length (bodies_of v infile)
   ≤ S (length (records (allocate_slots_of v infile))))%nat ∧
  (∀ i ci cj,
     tables v infile !! i = Some ci →
     tables v infile !! S i = Some cj →
     ∃ row row',
       input_records infile !! i = Some row ∧
       allocate_row_of v ci row = Ok (row', cj) ∧
       (∀ rec, records (allocate_slots_of v infile) !! i = Some rec →
               rec = row') ∧
       ((cj = ci ∧
         ∃ o, o ∈ fallbacks_of v ∧ outcome row' = Some (VStr o)) ∨
        (∃ s c, ci !! s = Some c ∧ 0 < c ∧ cj = <[s := c - 1]> ci ∧
                outcome row' = Some (VStr s)))) ∧
  (∀ i j ci cj s c,
     (i ≤ j)%nat →
     tables v infile !! i = Some ci →
     tables v infile !! j = Some cj →
     ci !! s = Some c →
     0 ≤ c ∧ ∃ c', cj !! s = Some c' ∧ 0 ≤ c' ≤ c) ∧
  (∀ s row' c,
     capacity_of v !! s = Some 0 →
     (row', c) ∈ bodies_of v infile →
     outcome row' ≠ Some (VStr s)) ∧
  (∀ s rec,
     capacity_of v !! s = Some 0 →
     rec ∈ records (allocate_slots_of v infile) →
     outcome rec ≠ Some (VStr s)).
Proof.
  pose proof (bodies_of_run v infile) as (Hpre & Hlast & Hlen).
  assert (∀ i r cj, bodies_of v infile !! i = Some (r, cj) →
    ∃ row ci,
      input_records infile !! i = Some row ∧
      tables v infile !! i = Some ci ∧
      allocate_row_of v ci row = Ok (r, cj) ∧
      transition (fallbacks_of v) ci row r cj) as Hbody.
  { intros i r cj Hi.
    destruct (bodies_step _ _ _ _ _ _ _ Hi) as (row & ci & Hrow & Hci & Hstep).
    exists row, ci. split; [done|]. split; [done|]. split; [done|].
    apply step_transition_of; [|done].
    by destruct (bodies_tables_from _ _ _ (step_transition_of v) _ _ _ _ ""
                   (capacity_of_ok v) Hci). }
  assert (∀ s r c, capacity_of v !! s = Some 0 → (r, c) ∈ bodies_of v infile →
                   outcome r ≠ Some (VStr s)) as Hzero.
  { intros s r c Hs [i Hi]%list_elem_of_lookup_1.
    destruct (Hbody _ _ _ Hi) as (row & ci & _ & Hci & _ & Ht).
    destruct (bodies_tables_from _ _ _ (step_transition_of v) _ _ _ _ s
                (capacity_of_ok v) Hci) as [[_ Hf] Hb].
    rewrite Hs in Hb. destruct Hb as (c' & Hc' & Hle & _).
    destruct Ht as [o Ho|s0 c0 Hs0 Hc0]; rewrite outcome_set.
    - intros [= ->]. rewrite (Hf _ Ho) in Hc'. done.
    - intros [= ->]. rewrite Hs0 in Hc'. injection Hc' as ->. lia. }
  split; [done|]. split; [done|]. split.
  { split; [|done]. apply prefix_length in Hpre.
    by rewrite length_fmap in Hpre. }
  split; [|split; [|split]].
  - intros i ci cj Hci Hcj.
    unfold tables in Hcj.
    change ((bodies_of v infile).*2 !! i = Some cj) in Hcj.
    rewrite list_lookup_fmap in Hcj.
    destruct (bodies_of v infile !! i) as [[r c]|] eqn:Hi; [|done].
    injection Hcj as ->.
    destruct (Hbody _ _ _ Hi) as (row & ci' & Hrow & Hci' & Hstep & Ht).
    assert (ci' = ci) as -> by congruence.
    exists row, r. split; [done|]. split; [done|]. split.
    + intros rec Hrec. destruct Hpre as [rest Hrest].
      assert ((bodies_of v infile).*1 !! i = Some rec) as Hrec'.
      { rewrite Hrest. by apply lookup_app_l_Some. }
      rewrite list_lookup_fmap, Hi in Hrec'. by injection Hrec' as <-.
    + destruct Ht as [o Ho|s c Hs Hc]; rewrite outcome_set.
      * left. split; [done|]. by exists o.
      * right. by exists s, c.
  - intros i j ci cj s c Hij Hci Hcj Hs.
    destruct (bodies_tables_from _ _ _ (step_transition_of v) _ _ _ _ s
                (capacity_of_ok v) Hci) as [_ Hb].
    assert (0 ≤ c) as Hc.
    { destruct (capacity_of v !! s) as [c0|] eqn:H0.
      - destruct Hb as (c1 & Hc1 & _ & Hnn).
        pose proof (capacity_of_nonneg v s c0 H0). 
        assert (c1 = c) by congruence. subst. tauto.
      - congruence. }
    split; [done|].
    destruct (bodies_tables_between _ _ _ (step_transition_of v) _ _ _ _ _ _ _ _
                (capacity_of_ok v) Hij Hci Hcj Hs) as (c' & Hc' & Hle & Hnn).
    exists c'. split; [done|]. split; [tauto|done].
  - done.
  - intros s rec Hs Hrec. destruct Hpre as [rest Hrest].
    assert (rec ∈ (bodies_of v infile).*1) as Hin.
    { rewrite Hrest. apply elem_of_app. by left. }
    apply list_elem_of_fmap in Hin as ([r c] & -> & Hin). by eapply Hzero.
Qed.

Lemma capacity_discipline_witness :
  ∃ row row',
    input_records surplus_cell_file !! 0%nat = Some row ∧
    Gym.allocate_row Gym.capacity row =
      Ok (row', <["SLOT 4 (5:30PM TO 7:00PM)" := 4]> Gym.capacity) ∧
    outcome row' = Some (VStr "SLOT 4 (5:30PM TO 7:00PM)") ∧
    records (Gym.allocate_slots surplus_cell_file) = [].
Proof.
  destruct (proj1 (proj2 (proj2 (proj2
              (capacity_discipline Base surplus_cell_file)))) 0%nat
              Gym.capacity (<["SLOT 4 (5:30PM TO 7:00PM)" := 4]> Gym.capacity))
    as (row & row' & Hrow & Hstep & _ & Hcase).
  - reflexivity.
  - reflexivity.
  - exists row, row'. split; [exact Hrow|]. split; [exact Hstep|].
    split; [|vm_compute; reflexivity].
    destruct Hcase as [[Hsame _]|(s & c & Hs & _ & Hcj & Hout)].
    + exfalso. apply (f_equal (λ m : gmap string Z,
                                 m !! "SLOT 4 (5:30PM TO 7:00PM)")) in Hsame.
      vm_compute in Hsame. discriminate Hsame.
    + destruct (decide (s = "SLOT 4 (5:30PM TO 7:00PM)")) as [->|Hne];
        [exact Hout|].
      exfalso. apply (f_equal (λ m : gmap string Z, m !! s)) in Hcj.
      rewrite lookup_insert_ne, lookup_insert_eq, Hs in Hcj by done.
      injection Hcj as Hcj. lia.
Defined.


(** ** First fit on the preferences a record lists *)

Lemma listed_read v row pref s :
  listed v row pref = Some s → read_of v row pref = Ok (VStr s).
Proof.
  unfold listed. destruct (dict_get row (Some pref)) as [[cell| |l]|] eqn:Hget;
    [|done..].
  intros [= <-]. destruct v; cbv [read_of].
  - unfold Gym.read. by rewrite Hget.
  - unfold Iiitk.read, Iiitk.get_strip. by rewrite Hget.
Qed.

Lemma present_read v cap row pref :
  cap !! "" = None →
  present v row pref →
  (∀ s, listed v row pref = Some s → ¬ has_room cap s) →
  ∃ slot, read_of v row pref = Ok slot ∧ no_room cap slot.
Proof.
  intros He. unfold present, listed.
  destruct v, (dict_get row (Some pref)) as [[cell| |l]|] eqn:Hget;
    try done; intros _ Hroom; cbv [read_of].
  - exists (VStr cell). unfold Gym.read. rewrite Hget. split; [done|].
    by apply Hroom.
  - exists VNone. unfold Gym.read. by rewrite Hget.
  - exists (VStr (strip cell)). unfold Iiitk.read, Iiitk.get_strip.
    rewrite Hget. split; [done|]. by apply Hroom.
  - exists (VStr ""). unfold Iiitk.read, Iiitk.get_strip. rewrite Hget.
    split; [done|]. intros (c & Hc & _). simpl in Hc. congruence.
Qed.

Lemma first_with_room_available v cap row i s :
  cap !! "" = None →
  first_with_room v cap row i s →
  (∀ j pref, (j < i)%nat → preference_columns_of v !! j = Some pref →
     present v row pref) →
  first_available (read_of v) cap row (preference_columns_of v) i s.
Proof.
  intros He ((pref & Hpref & Hl) & Hroom & Hearlier) Hpresent.
  split; [|split; [done|]].
  - exists pref. split; [done|]. by apply listed_read.
  - intros j p Hj Hp. apply present_read; [done|exact (Hpresent j p Hj Hp)|].
    intros s' Hs'. exact (Hearlier j p s' Hj Hp Hs').
Qed.

(** The columns up to rank [i] are among the decisive ones. *)
Lemma decisive_preference v i j pref :
  (j ≤ i)%nat → preference_columns_of v !! j = Some pref → pref ∈ decisive v i.
Proof.
  intros Hj Hpref.
  assert (pref ∈ take (S i) (preference_columns_of v)) as Hin.
  { apply elem_of_take. exists j. split; [done|lia]. }
  destruct v; cbv [decisive preference_columns_of] in *; [done|by right].
Qed.

Lemma listed_ext v row1 row2 pref :
  dict_get row2 (Some pref) = dict_get row1 (Some pref) →
  listed v row2 pref = listed v row1 pref ∧
  (present v row1 pref → present v row2 pref).
Proof. unfold listed, present. by intros ->. Qed.

(** The row body on a record whose first preference with room has rank
    [i], every earlier preference being present. *)
Lemma allocate_row_first_with_room v cap row i s c :
  dom cap = dom (capacity_of v) →
  reaches_matching v row →
  first_with_room v cap row i s →
  (∀ j pref, (j < i)%nat → preference_columns_of v !! j = Some pref →
     present v row pref) →
  cap !! s = Some c →
  allocate_row_of v cap row =
    Ok (dict_set row (Some "Allocated Slot") (VStr s), <[s := c - 1]> cap).
Proof.
  intros Hdom Hreach Hfirst Hpresent Hs.
  destruct (same_slots_ok v cap Hdom) as [He _].
  apply (allocate_row_first_available v cap row i s c); try done.
  by apply first_with_room_available.
Qed.

(** C2. First fit. For a record that reaches preference matching, let
    rank [i] be the first preference, in rank order, whose label is a key
    of the capacity table with remaining capacity above 0, and let every
    preference field ranked before it be present. Then the outcome is
    that label, the capacity [c] of that slot becomes [c - 1] and nothing
    else in the table changes; any record with the same e-mail and the
    same preferences up to rank [i] gets the same outcome and table,
    whatever its later preference columns hold, so these are not
    examined; and in a run that processes the record with that table, the
    next table is the one so decremented and the record written has that
    outcome. The label is the cell in the base variant and the trimmed
    cell in the extended one. Without the condition on the earlier fields
    the statement fails: with a header that lacks the first preference
    column the base variant raises [KeyError], and on a line that ends
    before the column of the first preference the extended variant raises
    [AttributeError], although the second preference names a slot with
    room; no outcome is assigned and the run ends. *)
Theorem first_fit_assignment :
  (∀ v cap row i s c,
     dom cap = dom (capacity_of v) →
     reaches_matching v row →
     first_with_room v cap row i s →
     (∀ j pref, (j < i)%nat → preference_columns_of v !! j = Some pref →
        present v row pref) →
     cap !! s = Some c →
     allocate_row_of v cap row =
       Ok (dict_set row (Some "Allocated Slot") (VStr s), <[s := c - 1]> cap) ∧
     (∀ row2,
        (∀ k, k ∈ decisive v i →
           dict_get row2 (Some k) = dict_get row (Some k)) →
        decision (allocate_row_of v cap row2) =
          Ok (Some (VStr s), <[s := c - 1]> cap)) ∧
     (∀ infile n,
        input_records infile !! n = Some row →
        capacity_when v infile n = Some cap →
        tables v infile !! S n = Some (<[s := c - 1]> cap) ∧
        ∀ out, records (allocate_slots_of v infile) !! n = Some out →
               outcome out = Some (VStr s))) ∧
  (let row := reader_row ["Name"; "SLOT PREFERENCE : 2"; "SLOT PREFERENCE : 3"]
                ["asha"; "SLOT 4 (5:30PM TO 7:00PM)"; ""] in
   input_records no_first_preference_file = [row] ∧
   reaches_matching Base row ∧
   first_with_room Base Gym.capacity row 1 "SLOT 4 (5:30PM TO 7:00PM)" ∧
   Gym.allocate_row Gym.capacity row = Raise KeyError ∧
   records (Gym.allocate_slots no_first_preference_file) = [] ∧
   raised (Gym.allocate_slots no_first_preference_file) = Some KeyError) ∧
  (∃ row,
   input_records late_first_preference_file = [row] ∧
   reaches_matching Extended row ∧
   first_with_room Extended Iiitk.capacity row 1 "SLOT 6 (5:30PM TO 7:00PM)" ∧
   Iiitk.allocate_row Iiitk.capacity row = Raise AttributeError ∧
   records (Iiitk.allocate_slots late_first_preference_file) = [] ∧
   raised (Iiitk.allocate_slots late_first_preference_file) =
     Some AttributeError).
Proof.
  split; [|split].
  - intros v cap row i s c Hdom Hreach Hfirst Hpresent Hs.
    pose proof (allocate_row_first_with_room v cap row i s c
                  Hdom Hreach Hfirst Hpresent Hs) as Hrow.
    split; [done|]. split.
    + intros row2 Hsame.
      assert (∀ j pref, (j ≤ i)%nat → preference_columns_of v !! j = Some pref →
                dict_get row2 (Some pref) = dict_get row (Some pref)) as Hprefs.
      { intros j pref Hj Hpref. apply Hsame.
        by apply (decisive_preference v i j). }
      rewrite (allocate_row_first_with_room v cap row2 i s c); try done.
      * cbv [decision]. by rewrite outcome_set.
      * destruct v; [done|]. cbv [reaches_matching] in *.
        destruct Hreach as (e & He & Hdomain). exists e. split; [|done].
        unfold Iiitk.get_strip in *. rewrite Hsame; [done|]. by left.
      * destruct Hfirst as ((pref & Hpref & Hl) & Hroom & Hearlier).
        split; [|split; [done|]].
        -- exists pref. split; [done|].
           by rewrite (proj1 (listed_ext v row row2 pref
                                (Hprefs i pref (le_n i) Hpref))).
        -- intros j p s' Hj Hp.
           rewrite (proj1 (listed_ext v row row2 p (Hprefs j p ltac:(lia) Hp))).
           exact (Hearlier j p s' Hj Hp).
      * intros j p Hj Hp.
        assert (dict_get row2 (Some p) = dict_get row (Some p)) as Heq
          by (apply (Hprefs j p); [lia|done]).
        apply (proj2 (listed_ext v row row2 p Heq)). exact (Hpresent j p Hj Hp).
    + intros infile n Hinp Hcap.
      destruct (tables_reached v infile n row cap Hinp Hcap) as [_ Hnext].
      destruct (Hnext _ _ Hrow) as [_ Htab]. split; [done|].
      intros out Hout.
      destruct (record_step v infile n out Hout)
        as (row0 & ci & cj & Hinp0 & Hci & Hstep & _).
      assert (row0 = row) as -> by congruence.
      assert (ci = cap) as -> by congruence.
      rewrite Hrow in Hstep. injection Hstep as <- _. apply outcome_set.
  - intros row. split; [vm_compute; reflexivity|]. split; [exact I|].
    split; [|split; [vm_compute; reflexivity|by vm_compute]].
    split; [exists "SLOT PREFERENCE : 2"; split; vm_compute; reflexivity|].
    split; [exists 5; split; [vm_compute; reflexivity|lia]|].
    intros [|j] pref s' Hj; [|lia]. intros [= <-]. by vm_compute.
  - eexists. split; [vm_compute; reflexivity|].
    split; [exists "asha@iiitk.ac.in"; split; vm_compute; reflexivity|].
    split; [|split; [vm_compute; reflexivity|by vm_compute]].
    split; [exists "SLOT PREFERENCE : 2"; split; vm_compute; reflexivity|].
    split; [exists 1; split; [vm_compute; reflexivity|lia]|].
    intros [|j] pref s' Hj; [|lia]. intros [= <-]. by vm_compute.
Qed.

Lemma first_fit_assignment_witness :
  (let row := reader_row
     ["Name"; "SLOT PREFERENCE : 1"; "SLOT PREFERENCE : 2"; "SLOT PREFERENCE : 3"]
     ["asha"; "SLOT 5 (7:00PM TO 8:30PM)"; "SLOT 4 (5:30PM TO 7:00PM)"] in
   let s := "SLOT 4 (5:30PM TO 7:00PM)" in
   Gym.allocate_row Gym.capacity row =
     Ok (dict_set row (Some "Allocated Slot") (VStr s), <[s := 4]> Gym.capacity)) ∧
  (let row := reader_row
     ["Email"; "SLOT PREFERENCE : 1"; "SLOT PREFERENCE : 2"]
     ["Asha@IIITK.ac.in "; "SLOT 66"; " SLOT 6 (5:30PM TO 7:00PM) "] in
   let s := "SLOT 6 (5:30PM TO 7:00PM)" in
   Iiitk.allocate_row Iiitk.capacity row =
     Ok (dict_set row (Some "Allocated Slot") (VStr s), <[s := 0]> Iiitk.capacity)).
Proof.
  split.
  - intros row s.
    refine (proj1 (proj1 first_fit_assignment Base Gym.capacity row 1%nat s 5
                     _ _ _ _ _)).
    + reflexivity.
    + exact I.
    + split; [exists "SLOT PREFERENCE : 2"; split; vm_compute; reflexivity|].
      split; [exists 5; split; [vm_compute; reflexivity|lia]|].
      intros [|j] pref s' Hj; [|lia]. intros [= <-] [= <-].
      intros (c & Hc & Hpos). vm_compute in Hc. injection Hc as <-. lia.
    + intros [|j] pref Hj; [|lia]. intros [= <-]. vm_compute. exact I.
    + vm_compute; reflexivity.
  - intros row s.
    refine (proj1 (proj1 first_fit_assignment Extended Iiitk.capacity row 1%nat s 1
                     _ _ _ _ _)).
    + reflexivity.
    + exists "Asha@IIITK.ac.in". split; vm_compute; reflexivity.
    + split; [exists "SLOT PREFERENCE : 2"; split; vm_compute; reflexivity|].
      split; [exists 1; split; [vm_compute; reflexivity|lia]|].
      intros [|j] pref s' Hj; [|lia]. intros [= <-] [= <-].
      intros (c & Hc & _). vm_compute in Hc. discriminate Hc.
    + intros [|j] pref Hj; [|lia]. intros [= <-]. vm_compute. exact I.
    + vm_compute; reflexivity.
Defined.


(** ** Priority of the earlier applicant *)

(** A record of the input whose line had no more cells than the header is
    written. *)
Lemma writerow_no_surplus v infile i row o :
  input_records infile !! i = Some row →
  no_surplus row →
  writerow (fieldnames_of v (hd [] infile))
    (dict_set row (Some "Allocated Slot") (VStr o)) =
  Ok (row_cells (fieldnames_of v (hd [] infile))
        (dict_set row (Some "Allocated Slot") (VStr o))).
Proof.
  destruct infile as [|names lines]; simpl; [by rewrite lookup_nil|].
  unfold DictReader. rewrite list_lookup_fmap.
  destruct (filter _ lines !! i) as [line|]; [|done].
  intros [= <-] Hfit. rewrite writerow_reader_row.
  destruct (Nat.ltb_spec (length names) (length line)) as [Hlt|_]; [|done].
  destruct Hfit. apply reader_row_keys. by right.
Qed.

(** C6, as amended. In either variant, let [A] be input record [i], let
    the run have reached it, let slot [s] have capacity exactly 1 at that
    moment, let [A] reach preference matching with [s] as the first of
    its preferences, in rank order, whose label has room, and let every
    preference field of [A] ranked before it be present. Then the body of
    [A] takes the place: the next table has [s] at 0. When the line of
    [A] has no more cells than the header, the record of [A] is written,
    with outcome [s]. No record written for a later input record has
    outcome [s]. *)
Theorem first_come_first_served v infile i A s k ci :
  input_records infile !! i = Some A →
  capacity_when v infile i = Some ci →
  ci !! s = Some 1 →
  reaches_matching v A →
  first_with_room v ci A k s →
  (∀ j pref, (j < k)%nat → preference_columns_of v !! j = Some pref →
     present v A pref) →
  tables v infile !! S i = Some (<[s := 0]> ci) ∧
  (no_surplus A →
   ∃ oa, records (allocate_slots_of v infile) !! i = Some oa ∧
         outcome oa = Some (VStr s)) ∧
  (∀ oa, records (allocate_slots_of v infile) !! i = Some oa →
         outcome oa = Some (VStr s)) ∧
  (∀ j ob, (i < j)%nat →
     records (allocate_slots_of v infile) !! j = Some ob →
     outcome ob ≠ Some (VStr s)).
Proof.
  intros HA Hci Hs Hreach Hfirst Hpresent.
  destruct (capacity_when_ok _ _ _ _ Hci) as [Hok _].
  pose proof (capacity_when_dom _ _ _ _ Hci) as Hdom.
  pose proof (allocate_row_first_with_room v ci A k s 1
                Hdom Hreach Hfirst Hpresent Hs) as Hstep.
  replace (1 - 1) with 0 in Hstep by lia.
  destruct (tables_reached v infile i A ci HA Hci) as [_ Hnext].
  destruct (Hnext _ _ Hstep) as [_ Htab]. split; [done|].
  pose proof (run_at v infile i A ci HA Hci) as Hat. rewrite Hstep in Hat.
  split; [|split].
  - intros Hfit. rewrite (writerow_no_surplus v infile i A s HA Hfit) in Hat.
    destruct Hat as (Hrec & _). eexists. split; [exact Hrec|apply outcome_set].
  - intros oa Hoa. destruct (writerow _ _) as [cells|ex].
    + destruct Hat as (Hrec & _). rewrite Hrec in Hoa. injection Hoa as <-.
      apply outcome_set.
    + destruct Hat as [Hlen _]. apply lookup_lt_Some in Hoa. lia.
  - intros j ob Hij Hob. destruct (writerow _ _) as [cells|ex].
    + destruct Hat as (_ & _ & o1 & o2 & c & e & Hout & Hlen & Hrest).
      assert (table_ok (fallbacks_of v) (<[s := 0]> ci)) as Hok'.
      { apply (transition_table_ok (fallbacks_of v) ci A
                 (dict_set A (Some "Allocated Slot") (VStr s))); [|done].
        replace 0 with (1 - 1) by lia. by apply transition_slot. }
      destruct (write_rows_bound _ _ _ (step_transition_of v) _ _ _ _ _ Hok' Hrest)
        as [_ Hb].
      specialize (Hb s). rewrite lookup_insert_eq in Hb.
      destruct Hb as (c' & _ & Hnn & Hle).
      apply (count_outcome_zero s o2); [lia|].
      rewrite Hout in Hob.
      rewrite lookup_app_r in Hob by lia.
      rewrite Hlen in Hob. destruct (j - i)%nat as [|n] eqn:Hn; [lia|].
      simpl in Hob. by eapply list_elem_of_lookup_2.
    + destruct Hat as [Hlen _]. apply lookup_lt_Some in Hob. lia.
Qed.

(** The statement without the condition on the e-mail fails in the
    extended variant: of two applicants for the one place of slot 6, the
    first, from another domain, gets "Invalid email domain" and the second
    gets the slot. *)
Lemma first_come_first_served_counterexample :
  let s := "SLOT 6 (5:30PM TO 7:00PM)" in
  let A := reader_row ["Email"; "SLOT PREFERENCE : 1"] ["a@other.com"; s] in
  let B := reader_row ["Email"; "SLOT PREFERENCE : 1"] ["b@iiitk.ac.in"; s] in
  input_records contested_file = [A; B] ∧
  capacity_when Extended contested_file 0 = Some Iiitk.capacity ∧
  Iiitk.capacity !! s = Some 1 ∧
  first_with_room Extended Iiitk.capacity A 0 s ∧
  first_with_room Extended Iiitk.capacity B 0 s ∧
  no_surplus A ∧ no_surplus B ∧
  outcome <$> records (Iiitk.allocate_slots contested_file) =
    [Some (VStr "Invalid email domain"); Some (VStr s)].
Proof.
  intros s A B.
  assert (∀ R, dict_get R (Some "SLOT PREFERENCE : 1") = Some (VStr s) →
    first_with_room Extended Iiitk.capacity R 0 s) as Hfirst.
  { intros R HR. split; [|split].
    - exists "SLOT PREFERENCE : 1". split; [reflexivity|].
      unfold listed. rewrite HR. reflexivity.
    - exists 1. split; [vm_compute; reflexivity|lia].
    - intros j pref s' Hj. lia. }
  split; [vm_compute; reflexivity|]. split; [reflexivity|].
  split; [vm_compute; reflexivity|].
  split; [apply Hfirst; vm_compute; reflexivity|].
  split; [apply Hfirst; vm_compute; reflexivity|].
  split; [apply (bool_decide_unpack _); vm_compute; exact I|].
  split; [apply (bool_decide_unpack _); vm_compute; exact I|].
  vm_compute. reflexivity.
Qed.

Lemma first_come_first_served_witness :
  let s := "SLOT 6 (5:30PM TO 7:00PM)" in
  let infile :=
    [ ["Email"; "SLOT PREFERENCE : 1"; "SLOT PREFERENCE : 2"];
      ["a@iiitk.ac.in"; "SLOT 66"; " SLOT 6 (5:30PM TO 7:00PM)"];
      ["b@iiitk.ac.in"; "SLOT 6 (5:30PM TO 7:00PM)"; "SLOT 7 (7:00PM TO 8:30PM)"] ] in
  (∃ oa, records (Iiitk.allocate_slots infile) !! 0%nat = Some oa ∧
         outcome oa = Some (VStr s)) ∧
  (∃ ob, records (Iiitk.allocate_slots infile) !! 1%nat = Some ob ∧
         outcome ob = Some (VStr "SLOT 7 (7:00PM TO 8:30PM)") ∧
         outcome ob ≠ Some (VStr s)).
Proof.
  intros s infile.
  pose (A := reader_row ["Email"; "SLOT PREFERENCE : 1"; "SLOT PREFERENCE : 2"]
               ["a@iiitk.ac.in"; "SLOT 66"; " SLOT 6 (5:30PM TO 7:00PM)"]).
  pose (ob := [ (Some "Email", VStr "b@iiitk.ac.in");
      (Some "SLOT PREFERENCE : 1", VStr "SLOT 6 (5:30PM TO 7:00PM)");
      (Some "SLOT PREFERENCE : 2", VStr "SLOT 7 (7:00PM TO 8:30PM)");
      (Some "Allocated Slot", VStr "SLOT 7 (7:00PM TO 8:30PM)") ] : dict).
  assert (records (Iiitk.allocate_slots infile) !! 1%nat = Some ob) as Hob
    by (vm_compute; reflexivity).
  destruct (first_come_first_served Extended infile 0 A s 1 Iiitk.capacity)
    as (_ & HA & _ & HB).
  - vm_compute; reflexivity.
  - reflexivity.
  - vm_compute; reflexivity.
  - exists "a@iiitk.ac.in". split; vm_compute; reflexivity.
  - split; [exists "SLOT PREFERENCE : 2"; split; vm_compute; reflexivity|].
    split; [exists 1; split; [vm_compute; reflexivity|lia]|].
    intros [|j] pref s' Hj; [|lia]. intros [= <-] [= <-].
    intros (c & Hc & _). vm_compute in Hc. discriminate Hc.
  - intros [|j] pref Hj; [|lia]. intros [= <-]. vm_compute. exact I.
  - split.
    + apply HA. apply (bool_decide_unpack _). vm_compute. exact I.
    + exists ob. split; [exact Hob|]. split; [vm_compute; reflexivity|].
      apply (HB 1%nat ob); [lia|exact Hob].
Defined.


(** ** Records in, lines out *)

Lemma input_record_keys names lines i inp k :
  input_records (names :: lines) !! i = Some inp →
  Some k ∈ dict_keys inp ↔ k ∈ names.
Proof.
  simpl. unfold DictReader. rewrite list_lookup_fmap.
  destruct (filter _ lines !! i) as [line|]; [|done].
  intros [= <-]. rewrite reader_row_keys. split.
  - by intros [(n & [= ->] & Hn)|[[=] _]].
  - intros Hk. left. by exists k.
Qed.

(** C4, as amended. In the extended variant, and in the base variant when
    the input header has no column "Allocated Slot": output record [i] is
    input record [i] after the assignment of the outcome to its field
    "Allocated Slot", every other field keeping its value, and the line
    written for it follows the output header, whose first line it comes
    after. When the input header has no such column, the output header is
    the input header with the column added, the record has the outcome as
    one more field at the end, and the line written is the values of the
    input record in header order followed by the outcome. When the input
    header has the column (extended variant), the output header is the
    input header, the record has the same fields in the same order, and
    the line written is the values of the input record in header order
    with the outcome in place of the value of that column: nothing is
    appended. *)
Theorem record_correspondence v names lines i out :
  v = Extended ∨ "Allocated Slot" ∉ names →
  records (allocate_slots_of v (names :: lines)) !! i = Some out →
  let r := allocate_slots_of v (names :: lines) in
  ∃ inp o,
    input_records (names :: lines) !! i = Some inp ∧
    out = dict_set inp (Some "Allocated Slot") (VStr o) ∧
    (∀ k, k ≠ Some "Allocated Slot" → dict_get out k = dict_get inp k) ∧
    fieldnames_out r =
      (if bool_decide ("Allocated Slot" ∈ names) then names
       else names ++ ["Allocated Slot"]) ∧
    lines_out r !! 0%nat = Some (VStr <$> fieldnames_out r) ∧
    ("Allocated Slot" ∉ names →
     out = inp ++ [(Some "Allocated Slot", VStr o)] ∧
     lines_out r !! S i = Some (row_cells names inp ++ [VStr o])) ∧
    ("Allocated Slot" ∈ names →
     dict_keys out = dict_keys inp ∧
     lines_out r !! S i =
       Some ((λ k, if decide (k = "Allocated Slot") then VStr o
                   else default (VStr "") (dict_get inp (Some k))) <$> names)).
Proof.
  intros Hscope Hout r.
  destruct (records_of_run v (names :: lines)) as (rs & c & e & Hrun & Hrs & _).
  pose proof Hout as Hout'. rewrite Hrs in Hout'.
  destruct (write_rows_records _ _ _ (step_transition_of v) _ _ _ _ _
              (capacity_of_ok v) Hrun _ _ Hout') as (inp & o & Hinp & -> & _).
  assert (fieldnames_out r = fieldnames_of v names ∧
          lines_out r !! 0%nat = Some (VStr <$> fieldnames_of v names) ∧
          lines_out r !! S i =
            Some ((λ k, if decide (k = "Allocated Slot") then VStr o
                        else default (VStr "") (dict_get inp (Some k)))
                  <$> fieldnames_of v names)) as (Hnames & Hhead & Hline).
  { subst r. revert Hout. rewrite allocate_slots_of_cons.
    destruct (write_rows _ _ _ _) as [[out' c'] e']. simpl. intros Hout.
    split; [done|]. unfold lines_out. simpl. split; [done|].
    by rewrite list_lookup_fmap, Hout, <- row_cells_annotated. }
  assert (fieldnames_of v names =
          (if bool_decide ("Allocated Slot" ∈ names) then names
           else names ++ ["Allocated Slot"])) as Hfn.
  { destruct v; [|done]. destruct Hscope as [?|Hno]; [done|].
    cbv [fieldnames_of Gym.fieldnames]. by rewrite bool_decide_eq_false_2. }
  exists inp, o. split; [done|]. split; [done|]. split.
  { intros k Hk. by apply dict_get_set_ne. }
  rewrite Hnames. split; [done|]. split; [done|]. split.
  - intros Hno. split.
    + apply dict_set_absent.
      by rewrite (input_record_keys names lines i inp "Allocated Slot" Hinp).
    + rewrite Hline, Hfn, bool_decide_eq_false_2, fmap_app by done.
      f_equal. apply (f_equal2 app); [|vm_compute; reflexivity].
      unfold row_cells. apply list_fmap_ext. intros j k Hk.
      rewrite decide_False; [done|]. intros ->.
      apply Hno. by eapply list_elem_of_lookup_2.
  - intros Hin. split.
    + apply dict_keys_set_present.
      by rewrite (input_record_keys names lines i inp "Allocated Slot" Hinp).
    + by rewrite Hline, Hfn, bool_decide_eq_true_2.
Qed.

(** On a file that already has the column, the line written has the
    cells of the input line and no more, and the earlier value of
    "Allocated Slot" is replaced. *)
Lemma record_correspondence_counterexample :
  ∃ line inp out cells,
    data_lines annotated_file !! 0%nat = Some line ∧
    input_records annotated_file !! 0%nat = Some inp ∧
    records (Iiitk.allocate_slots annotated_file) !! 0%nat = Some out ∧
    lines_out (Iiitk.allocate_slots annotated_file) !! 1%nat = Some cells ∧
    ¬ appended inp out ∧
    ¬ appended_line line cells ∧
    length cells = length line ∧
    dict_get inp (Some "Allocated Slot") = Some (VStr "No slot allocated") ∧
    dict_get out (Some "Allocated Slot") = Some (VStr "SLOT 6 (5:30PM TO 7:00PM)").
Proof.
  eexists _, _, _, _. split; [by vm_compute|]. split; [by vm_compute|].
  split; [by vm_compute|]. split; [by vm_compute|].
  split; [|split; [|by vm_compute]].
  - intros [o Ho]. apply (f_equal length) in Ho. by vm_compute in Ho.
  - intros [o Ho]. apply (f_equal length) in Ho. by vm_compute in Ho.
Qed.

Lemma record_correspondence_witness :
  let email := VStr "asha@iiitk.ac.in" in
  let slot := VStr "SLOT 6 (5:30PM TO 7:00PM)" in
  lines_out (Iiitk.allocate_slots annotated_file) !! 1%nat =
    Some [email; slot; slot] ∧
  lines_out (Gym.allocate_slots short_line_file) !! 1%nat =
    Some [VStr "asha"; VStr "SLOT 33"; VNone; VNone; VStr "No slot allocated"].
Proof.
  intros email slot. split.
  - destruct (record_correspondence Extended
                ["Email"; "SLOT PREFERENCE : 1"; "Allocated Slot"]
                [["asha@iiitk.ac.in"; "SLOT 6 (5:30PM TO 7:00PM)";
                  "No slot allocated"]] 0
                [ (Some "Email", email); (Some "SLOT PREFERENCE : 1", slot);
                  (Some "Allocated Slot", slot) ])
      as (inp & o & Hinp & Hout & _ & _ & _ & _ & Hhas).
    + by left.
    + vm_compute; reflexivity.
    + destruct Hhas as [_ Hline]; [apply (bool_decide_unpack _); vm_compute; exact I|].
      injection Hinp as <-. apply (f_equal outcome) in Hout.
      rewrite outcome_set in Hout. vm_compute in Hout. injection Hout as <-.
      exact Hline.
  - destruct (record_correspondence Base
                ["Name"; "SLOT PREFERENCE : 1"; "SLOT PREFERENCE : 2";
                 "SLOT PREFERENCE : 3"]
                [["asha"; "SLOT 33"]] 0
                [ (Some "Name", VStr "asha");
                  (Some "SLOT PREFERENCE : 1", VStr "SLOT 33");
                  (Some "SLOT PREFERENCE : 2", VNone);
                  (Some "SLOT PREFERENCE : 3", VNone);
                  (Some "Allocated Slot", VStr "No slot allocated") ])
      as (inp & o & Hinp & Hout & _ & _ & _ & Hnew & _).
    + right. apply (bool_decide_unpack _). vm_compute. exact I.
    + vm_compute; reflexivity.
    + destruct Hnew as [_ Hline]; [apply (bool_decide_unpack _); vm_compute; exact I|].
      injection Hinp as <-. apply (f_equal outcome) in Hout.
      rewrite outcome_set in Hout. vm_compute in Hout. injection Hout as <-.
      exact Hline.
Defined.


(** * Runs on what the reader yields *)

(** A run on a reading writes what the run on the lines yielded writes. *)
Lemma reading_records v rd :
  records (allocate_slots_reading v rd) =
  records (allocate_slots_of v (yielded rd)).
Proof.
  destruct rd as [[|names lines] [e|]]; try done.
  by rewrite allocate_slots_of_nil.
Qed.

(** X2. An input the variant tolerates is processed as far as the reader
    yields it: no statement of the program raises, so the run ends with
    an exception exactly when the reader raises one, and with that one;
    and one record is written for each line yielded that is not blank.
    The base variant tolerates lines shorter than the header when the
    header has the three preference columns; the extended variant
    tolerates lines of the header's length. *)
Theorem tolerated_input_completes v rd :
  tolerated v (yielded rd) →
  raised (allocate_slots_reading v rd) = failure rd ∧
  length (records (allocate_slots_reading v rd)) =
  length (filter (λ line, line ≠ []) (data_lines (yielded rd))).
Proof.
  intros Htol. rewrite reading_records.
  destruct (tolerated_lines_complete v (yielded rd) Htol) as [Hnone Hlen].
  split; [|done].
  destruct rd as [[|names lines] f]; [done|].
  unfold allocate_slots_reading. cbn [yielded failure raised] in *.
  by rewrite Hnone.
Qed.

Lemma tolerated_input_completes_witness :
  raised (allocate_slots_reading Base (Reading short_line_file (Some CsvError))) =
    Some CsvError ∧
  length (records (allocate_slots_reading Base
                     (Reading short_line_file (Some CsvError)))) =
  length (filter (λ line, line ≠ []) (data_lines short_line_file)).
Proof.
  apply (tolerated_input_completes Base (Reading short_line_file (Some CsvError))).
  split.
  - repeat constructor.
  - repeat constructor.
Defined.

(** X3. How a run ends with an exception. Either the reader raised it in
    place of a line, after every line it had yielded was processed and
    written; or a statement of the program raised it, and then it is
    [TypeError] and the input has no line at all, or [ValueError] and some
    line has more cells than the header, or [KeyError], in the base
    variant, and the header lacks one of the three preference columns, or
    [AttributeError], in the extended variant, and some line that is not
    blank has fewer cells than the header. *)
Theorem exceptions_of_a_run v rd e :
  raised (allocate_slots_reading v rd) = Some e →
  (failure rd = Some e ∧
   length (records (allocate_slots_reading v rd)) =
   length (input_records (yielded rd))) ∨
  (raised (allocate_slots_of v (yielded rd)) = Some e ∧
   match e with
   | TypeError => yielded rd = [] ∧ failure rd = None
   | ValueError =>
       Exists (λ line : list string,
                 (length (hd [] (yielded rd)) < length line)%nat)
         (data_lines (yielded rd))
   | KeyError =>
       v = Base ∧
       Exists (λ pref, pref ∉ hd [] (yielded rd)) Gym.preference_columns
   | AttributeError =>
       v = Extended ∧
       Exists (λ line : list string,
                 line ≠ [] ∧ (length line < length (hd [] (yielded rd)))%nat)
         (data_lines (yielded rd))
   | CsvError | UnicodeDecodeError | OSError => False
   end).
Proof.
  rewrite reading_records. destruct rd as [[|names lines] f].
  - destruct f as [ef|]; cbn [allocate_slots_reading yielded failure raised].
    + intros [= <-]. left. by rewrite allocate_slots_of_nil.
    + rewrite allocate_slots_of_nil. cbn [raised]. intros [= <-]. by right.
  - unfold allocate_slots_reading. cbn [yielded failure raised].
    destruct (raised (allocate_slots_of v (names :: lines))) as [e'|] eqn:Hr.
    + intros [= <-]. right. split; [done|].
      pose proof (program_exceptions v (names :: lines) e' Hr) as Hwhy.
      by destruct e'.
    + intros ->. left. split; [done|].
      pose proof (coverage_of_completed_run v (names :: lines)) as Hcov.
      by rewrite Hr in Hcov.
Qed.

Lemma exceptions_of_a_run_witness :
  let rd := Reading surplus_cell_file (Some UnicodeDecodeError) in
  (failure rd = Some ValueError ∧
   length (records (allocate_slots_reading Base rd)) =
   length (input_records (yielded rd))) ∨
  (raised (allocate_slots_of Base (yielded rd)) = Some ValueError ∧
   Exists (λ line : list string,
             (length (hd [] (yielded rd)) < length line)%nat)
     (data_lines (yielded rd))).
Proof.
  intros rd.
  apply (exceptions_of_a_run Base rd ValueError).
  vm_compute. reflexivity.
Defined.

(** X11. An input with a header and no data: the reader yields the
    header line and then nothing, or blank lines only. In either variant
    the run writes the output header and no record and leaves the table
    as configured; no statement of the program raises, so the run ends
    with the exception of the reader if it raised one after those lines,
    and with none if it reached the end of the file. When the reader
    raises before it has yielded the header line, the run ends with that
    exception and nothing is written. *)
Theorem header_only_input v names lines f :
  Forall (λ line : list string, line = []) lines →
  allocate_slots_reading v (Reading (names :: lines) f) =
    Run (fieldnames_of v names) (Some (VStr <$> fieldnames_of v names)) []
      (capacity_of v) f ∧
  ∀ e, allocate_slots_reading v (Reading [] (Some e)) =
       Run [] None [] (capacity_of v) (Some e).
Proof.
  intros Hblank. split; [|done].
  unfold allocate_slots_reading. cbn [yielded failure].
  by rewrite (header_only_lines v names lines Hblank).
Qed.

Lemma header_only_input_witness :
  lines_out (allocate_slots_reading Extended
               (Reading [["Email"; "Allocated Slot"]; []; []] (Some CsvError))) =
    [[VStr "Email"; VStr "Allocated Slot"]] ∧
  raised (allocate_slots_reading Extended
            (Reading [["Email"; "Allocated Slot"]; []; []] (Some CsvError))) =
    Some CsvError.
Proof.
  rewrite (proj1 (header_only_input Extended ["Email"; "Allocated Slot"]
                    [[]; []] (Some CsvError) ltac:(repeat constructor))).
  split; reflexivity.
Defined.
